(** * MoonCode: message lifecycle, store merge and capture verification

    A shallow embedding of the core of [src/MoonCodeApp.jsx]: the
    Supabase helpers ([insertMessage], [unlockMessage],
    [fetchMessagesForUser]), the row projection [mapRowToMessage], the
    threshold gate of [verifyMoon], and the message store kept by the
    [MoonCodeApp] component (load, change-feed merge, send, unlock, the
    sorted read). *)

From Stdlib Require Import ZArith NArith List Bool String Ascii Lia.
From Stdlib Require Import PrimFloat FloatOps SpecFloat.
From Stdlib Require Import Sorted Permutation.
From stdpp Require Import base list.

Set Warnings "-inexact-float".
Import ListNotations.

Local Open Scope Z_scope.

(** ** JavaScript strings

    A JS string is a sequence of UTF-16 code units.  Literals of the
    source are ASCII, so they are written as Rocq strings and converted. *)

Definition JsString := list N.

Definition str (s : string) : JsString :=
  map N_of_ascii (list_ascii_of_string s).

(** The code units removed by [String.prototype.trim]: ECMAScript
    WhiteSpace (TAB, VT, FF, SP, NBSP, ZWNBSP, category Zs) and
    LineTerminator (LF, CR, LS, PS). *)
Definition isWhiteSpace (c : N) : bool :=
  (existsb (N.eqb c)
     [9; 10; 11; 12; 13; 32; 160; 5760; 8232; 8233; 8239; 8287; 12288; 65279]
   || ((8192 <=? c) && (c <=? 8202)))%N.

Fixpoint trimStart (s : JsString) : JsString :=
  match s with
  | [] => []
  | c :: rest => if isWhiteSpace c then trimStart rest else s
  end.

Definition trimEnd (s : JsString) : JsString := rev (trimStart (rev s)).

Definition trim (s : JsString) : JsString := trimEnd (trimStart s).

(** [toLowerCase] on the ASCII range.  On other code units JS may change
    the unit too, but never into an ASCII letter of ["moon"] (the only
    non-ASCII characters that lower-case into ASCII are U+212A, to [k],
    and U+0130, to [i] and a combining dot), so the comparison made by
    [verifyMoon] is the same. *)
Definition toLowerCase (s : JsString) : JsString :=
  map (fun c => if ((65 <=? c) && (c <=? 90))%N then (c + 32)%N else c) s.

(** ** JavaScript values held by the nullable columns *)

(** The object built by [verifyMoon] for [onVerifiedMoon]; [dataUrl] is
    the React state [capturedDataUrl], [null] until a photo is taken. *)
Record CaptureRecord := {
  dataUrl : option JsString;
  confidence : float;
  verifiedAt : JsString
}.

Inductive JsValue :=
| JsUndefined
| JsNull
| JsBool (b : bool)
| JsNumber (x : float)
| JsStr (s : JsString)
| JsObject (c : CaptureRecord).

(** [!!v] *)
Definition truthy (v : JsValue) : bool :=
  match v with
  | JsUndefined | JsNull => false
  | JsBool b => b
  | JsNumber x => negb (PrimFloat.eqb x 0 || PrimFloat.is_nan x)
  | JsStr s => match s with [] => false | _ => true end
  | JsObject _ => true
  end.

Definition nullish (v : JsValue) : bool :=
  match v with
  | JsUndefined | JsNull => true
  | _ => false
  end.

(** [v ?? d] *)
Definition nullish_or (v d : JsValue) : JsValue :=
  if nullish v then d else v.

(** [v != null] of the spec: neither [null] nor [undefined]. *)
Definition non_null (v : JsValue) : bool := negb (nullish v).

(** ** Rows and messages *)

(** A row of the [messages] table.  [created_at] is the server-assigned
    timestamp, held as the number [new Date(created_at)] converts it to
    (milliseconds since the epoch). *)
Module DbRow.
Record t := {
  id : Z;
  sender : JsString;
  recipient : JsString;
  body : JsString;
  locked : JsValue;
  created_at : Z;
  receive_at : JsValue;
  send_photo : JsValue;
  receive_photo : JsValue
}.
End DbRow.

Module Message.
Record t := {
  id : Z;
  from : JsString;
  to : JsString;
  body : JsString;
  locked : bool;
  sentAt : Z;
  receiveAt : JsValue;
  sendPhoto : JsValue;
  receivePhoto : JsValue;
  archived : bool;
  rawSender : JsString;
  rawRecipient : JsString
}.
End Message.

Definition You : JsString := str "You".

(** [viewerName?.trim() || "You"]; [None] is an [undefined] or [null]
    argument. *)
Definition viewer_of (viewerName : option JsString) : JsString :=
  match viewerName with
  | None => You
  | Some s => match trim s with [] => You | t => t end
  end.

Definition mapRowToMessage (row : DbRow.t) (viewerName : option JsString)
  : Message.t :=
  let viewer := viewer_of viewerName in
  let isSender := bool_decide (DbRow.sender row = viewer) in
  {| Message.id := DbRow.id row;
     Message.from := if isSender then You else DbRow.sender row;
     Message.to := if isSender then DbRow.recipient row else You;
     Message.body := DbRow.body row;
     Message.locked := truthy (DbRow.locked row);
     Message.sentAt := DbRow.created_at row;
     Message.receiveAt := nullish_or (DbRow.receive_at row) JsNull;
     Message.sendPhoto := nullish_or (DbRow.send_photo row) JsNull;
     Message.receivePhoto := nullish_or (DbRow.receive_photo row) JsNull;
     Message.archived := truthy (DbRow.receive_photo row);
     Message.rawSender := DbRow.sender row;
     Message.rawRecipient := DbRow.recipient row |}.

(** ** The [messages] table behind the Supabase client

    The client library is not part of the repository; the table is a list
    of rows, a request either fails with the error the client reports
    ([fault]) or is carried out.  [insertMessage] leaves [receive_at] and
    [receive_photo] to the column default [null]; the server assigns [id]
    and [created_at].  [feed] is the change feed: every row version the
    table has emitted as [payload.new]. *)

Definition Table := list DbRow.t.

Record Backend := {
  table : Table;
  feed : list DbRow.t
}.

(** ** What the handlers catch, and the text [showSupabaseError] shows *)

(** A caught value: a string, or an object with the three fields the
    function reads (each a string, or absent), or [null]/[undefined]. *)
Record ErrorObject := {
  message : option JsString;
  error_description : option JsString;
  details : option JsString
}.

Inductive Thrown :=
| ThrownNullish
| ThrownString (s : JsString)
| ThrownObject (o : ErrorObject).

(** [a || b] on values that are a string or absent: the empty string is
    falsy. *)
Definition or_else (a b : option JsString) : option JsString :=
  match a with
  | Some (c :: s) => Some (c :: s)
  | _ => b
  end.

(** [e?.message || e?.error_description || e?.details ||
    (typeof e === "string" ? e : null) || fallback] *)
Definition errorText (e : Thrown) (fallback : JsString) : JsString :=
  let field (f : ErrorObject -> option JsString) :=
    match e with
    | ThrownObject o => f o
    | _ => None
    end in
  let asString := match e with ThrownString s => Some s | _ => None end in
  match or_else (field message)
          (or_else (field error_description)
             (or_else (field details) (or_else asString None))) with
  | Some text => text
  | None => fallback
  end.

(** The [error] of a response is an object: the helpers throw it as it
    is ([if (error) throw error]). *)
Definition SupabaseError := ErrorObject.

Definition Response := (SupabaseError + DbRow.t)%type.

Definition insertMessage (db : Backend)
    (sender recipient body : JsString) (sendPhoto : JsValue)
    (newId created : Z) (fault : option SupabaseError)
  : Backend * Response :=
  match fault with
  | Some error => (db, inl error)
  | None =>
      let data :=
        {| DbRow.id := newId;
           DbRow.sender := sender;
           DbRow.recipient := recipient;
           DbRow.body := body;
           DbRow.locked := JsBool true;
           DbRow.created_at := created;
           DbRow.receive_at := JsNull;
           DbRow.send_photo := nullish_or sendPhoto JsNull;
           DbRow.receive_photo := JsNull |} in
      ({| table := table db ++ [data]; feed := feed db ++ [data] |},
       inr data)
  end.

(** The [update] payload of [unlockMessage] applied to one row; [now] is
    [new Date().toISOString()]. *)
Definition unlock_update (receivePhoto : JsValue) (now : JsString)
    (r : DbRow.t) : DbRow.t :=
  {| DbRow.id := DbRow.id r;
     DbRow.sender := DbRow.sender r;
     DbRow.recipient := DbRow.recipient r;
     DbRow.body := DbRow.body r;
     DbRow.locked := JsBool false;
     DbRow.created_at := DbRow.created_at r;
     DbRow.receive_at := JsStr now;
     DbRow.send_photo := DbRow.send_photo r;
     DbRow.receive_photo := nullish_or receivePhoto JsNull |}.

(** The update reaches the rows whose id is [id]. *)
Definition unlock_in (id : Z) (receivePhoto : JsValue) (now : JsString)
    (r : DbRow.t) : DbRow.t :=
  if DbRow.id r =? id then unlock_update receivePhoto now r else r.

(** What [.single()] reports unless exactly one row comes back. *)
Definition single_error : SupabaseError :=
  {| message :=
       Some (str "JSON object requested, multiple (or no) rows returned");
     error_description := None;
     details := None |}.

(** [update(..).eq("id", id).select().single()]: the rows whose id is
    [id] are updated; anything but one such row is an error and leaves
    the table as it was. *)
Definition unlockMessage (db : Backend) (id : Z) (receivePhoto : JsValue)
    (now : JsString) (fault : option SupabaseError) : Backend * Response :=
  match fault with
  | Some error => (db, inl error)
  | None =>
      match List.filter (fun r => DbRow.id r =? id) (table db) with
      | [r] =>
          let data := unlock_update receivePhoto now r in
          ({| table := map (unlock_in id receivePhoto now) (table db);
              feed := feed db ++ [data] |},
           inr data)
      | _ => (db, inl single_error)
      end
  end.

(** ** Sorting

    [Array.prototype.sort] is stable and orders [a] before [b] when the
    comparator is negative; a stable insertion sort is one such sort. *)

Section ArraySort.
Context {A : Type} (compareFn : A -> A -> Z).

Fixpoint sort_insert (x : A) (l : list A) : list A :=
  match l with
  | [] => [x]
  | y :: rest =>
      if 0 <? compareFn x y then y :: sort_insert x rest else x :: l
  end.

Fixpoint Array_sort (l : list A) : list A :=
  match l with
  | [] => []
  | x :: rest => sort_insert x (Array_sort rest)
  end.
End ArraySort.

(** [(a, b) => new Date(b.sentAt) - new Date(a.sentAt)] *)
Definition bySentAtDesc (a b : Message.t) : Z :=
  Message.sentAt b - Message.sentAt a.

(** [[...messages].sort(...)], the value of the [sortedMessages] memo. *)
Definition sortedMessages (messages : list Message.t) : list Message.t :=
  Array_sort bySentAtDesc messages.

(** [useMemo(compute, [messages])]: the memo cell keeps the dependency it
    was computed for and its value.  React compares dependencies by
    identity; every [setMessages] of the component installs a fresh
    array, so a state version stands for the array's identity. *)
Record Memo := {
  memo_version : nat;
  memo_value : list Message.t
}.

Definition useMemo_sortedMessages (cell : option Memo) (version : nat)
    (messages : list Message.t) : Memo :=
  match cell with
  | Some c =>
      if bool_decide (memo_version c = version) then c
      else {| memo_version := version; memo_value := sortedMessages messages |}
  | None => {| memo_version := version; memo_value := sortedMessages messages |}
  end.

(** The [messages] state with the identity of its array, and the memo
    cell; a [setMessages] installs a new array, a render reads
    [sortedMessages] through the memo. *)
Record Rendered := {
  store_version : nat;
  store_messages : list Message.t;
  memo_cell : option Memo
}.

Inductive StoreOp :=
| op_setMessages (f : list Message.t -> list Message.t)
| op_render.

Definition run_op (r : Rendered) (op : StoreOp) : Rendered :=
  match op with
  | op_setMessages f =>
      {| store_version := S (store_version r);
         store_messages := f (store_messages r);
         memo_cell := memo_cell r |}
  | op_render =>
      {| store_version := store_version r;
         store_messages := store_messages r;
         memo_cell :=
           Some (useMemo_sortedMessages (memo_cell r) (store_version r)
                   (store_messages r)) |}
  end.

Definition mounted : Rendered :=
  {| store_version := 0; store_messages := []; memo_cell := None |}.

(** What a render passes to the inbox as [messages]. *)
Definition visible (r : Rendered) : list Message.t :=
  memo_value (useMemo_sortedMessages (memo_cell r) (store_version r)
                (store_messages r)).

(** [.order("created_at", { ascending: false })] *)
Definition byCreatedAtDesc (a b : DbRow.t) : Z :=
  DbRow.created_at b - DbRow.created_at a.

(** [fetchMessagesForUser]: the rows sent by or to the trimmed name, most
    recent first; rows of equal [created_at] are kept in table order.
    The request names the user by the quoted text of [pgQuote], which
    escapes quotes and nothing else: the server is taken to read that
    text as the name, as it does for a name without a backslash.  The
    statements that need the selection to be by name carry that
    restriction; the others only need the rows to be rows of the table. *)
Definition fetchMessagesForUser (db : Backend) (userName : JsString)
    (fault : option SupabaseError) : SupabaseError + list DbRow.t :=
  let u := trim userName in
  match fault with
  | Some error => inl error
  | None =>
      inr (Array_sort byCreatedAtDesc
             (List.filter
                (fun r => bool_decide (DbRow.sender r = u)
                          || bool_decide (DbRow.recipient r = u))
                (table db)))
  end.

(** ** Capture verification *)

Definition MOON_CLASS_NAME : JsString := str "Moon".

Definition MOON_THRESHOLD : float := 0.75.

Record Prediction := {
  className : JsString;
  probability : float
}.

(** The integer [Math.round] returns, as the template literal prints it
    ([-0] prints as [0]). *)
Inductive Rounded :=
| RNaN
| RInfinity (negative : bool)
| RInt (z : Z).

(** [Math.round]: the nearest integer, ties towards positive infinity,
    i.e. the floor of [x + 1/2] taken exactly. *)
Definition Math_round (x : float) : Rounded :=
  match Prim2SF x with
  | S754_nan => RNaN
  | S754_infinity s => RInfinity s
  | S754_zero _ => RInt 0
  | S754_finite s m e =>
      let n := if s then Z.neg m else Z.pos m in
      RInt (if 0 <=? e then n * 2 ^ e
            else (2 * n + 2 ^ (- e)) / 2 ^ (- e + 1))
  end.

(** The texts [verifyMoon] puts in [resultText], by template. *)
Inductive ResultText :=
| NoText
| MoonVerified (percent : Rounded)
| NotEnoughMoon (percent : Rounded)
| VerificationFailed (message : JsString).

(** [predictions.find((p) => p.className.toLowerCase() ===
    MOON_CLASS_NAME.toLowerCase())] *)
Definition isMoon (p : Prediction) : bool :=
  bool_decide (toLowerCase (className p) = toLowerCase MOON_CLASS_NAME).

Definition moonPred (predictions : list Prediction) : option Prediction :=
  List.find isMoon predictions.

(** [moonPred?.probability ?? 0] *)
Definition moonProb (predictions : list Prediction) : float :=
  match moonPred predictions with
  | Some p => probability p
  | None => 0%float
  end.

Definition percent (prob : float) : Rounded :=
  Math_round (PrimFloat.mul prob 100).

(** The state of [MoonCameraCapture] that [verifyMoon] reads and writes. *)
Record CaptureState := {
  capturedDataUrl : option JsString;
  verifying : bool;
  resultText : ResultText
}.

Definition finish (st : CaptureState) (text : ResultText) : CaptureState :=
  {| capturedDataUrl := capturedDataUrl st;
     verifying := false;
     resultText := text |}.

(** [verifyMoon]: [hasModel] and [hasCanvas] are the two guards,
    [predicted] is what the model's [predict] gave (the predictions or
    the message of the error it threw), [now] is
    [new Date().toISOString()].  The second component is the argument of
    the [onVerifiedMoon] call, when it is made. *)
Definition verifyMoon (hasModel hasCanvas : bool)
    (predicted : JsString + list Prediction) (now : JsString)
    (st : CaptureState) : CaptureState * option CaptureRecord :=
  if negb hasModel then (st, None)
  else if negb hasCanvas then (st, None)
  else
    match predicted with
    | inl message => (finish st (VerificationFailed message), None)
    | inr predictions =>
        let moonProb := moonProb predictions in
        if PrimFloat.leb MOON_THRESHOLD moonProb then
          (finish st (MoonVerified (percent moonProb)),
           Some {| dataUrl := capturedDataUrl st;
                   confidence := moonProb;
                   verifiedAt := now |})
        else
          (finish st (NotEnoughMoon (percent moonProb)), None)
    end.

(** The pipeline state of the spec that a [verifyMoon] result stands for. *)
Inductive PipelineState :=
| Verified (capture : CaptureRecord)
| Rejected (reason : ResultText)
| Failed (reason : ResultText)
| Unchanged.

Definition pipeline_state (res : CaptureState * option CaptureRecord)
  : PipelineState :=
  match res with
  | (_, Some capture) => Verified capture
  | (st, None) =>
      match resultText st with
      | NotEnoughMoon p => Rejected (NotEnoughMoon p)
      | VerificationFailed m => Failed (VerificationFailed m)
      | _ => Unchanged
      end
  end.

(** ** The message store of [MoonCodeApp] *)

Inductive Route :=
| onboarding | inbox | sendCapture | selectRecipient | compose
| messageSent | unlockCapture | printing | gallery.

Inductive ConsoleEntry :=
| console_error (label : JsString) (err : SupabaseError).

(** The component state the core handlers use.  [recipient] is
    [recipient?.name], [None] when there is no recipient or no name. *)
Record App := {
  route : Route;
  userData_name : JsString;
  messages : list Message.t;
  activeMessage : option Message.t;
  sendPhoto : JsValue;
  recipient : option JsString;
  messageText : JsString;
  console : list ConsoleEntry;
  alerts : list JsString
}.

Definition setRoute (r : Route) (a : App) : App :=
  {| route := r; userData_name := userData_name a; messages := messages a;
     activeMessage := activeMessage a; sendPhoto := sendPhoto a;
     recipient := recipient a; messageText := messageText a;
     console := console a; alerts := alerts a |}.

Definition setMessages (f : list Message.t -> list Message.t) (a : App)
  : App :=
  {| route := route a; userData_name := userData_name a;
     messages := f (messages a);
     activeMessage := activeMessage a; sendPhoto := sendPhoto a;
     recipient := recipient a; messageText := messageText a;
     console := console a; alerts := alerts a |}.

Definition setActiveMessage (m : option Message.t) (a : App) : App :=
  {| route := route a; userData_name := userData_name a;
     messages := messages a;
     activeMessage := m; sendPhoto := sendPhoto a;
     recipient := recipient a; messageText := messageText a;
     console := console a; alerts := alerts a |}.

Definition log (e : ConsoleEntry) (a : App) : App :=
  {| route := route a; userData_name := userData_name a;
     messages := messages a;
     activeMessage := activeMessage a; sendPhoto := sendPhoto a;
     recipient := recipient a; messageText := messageText a;
     console := console a ++ [e]; alerts := alerts a |}.

Definition alert (msg : JsString) (a : App) : App :=
  {| route := route a; userData_name := userData_name a;
     messages := messages a;
     activeMessage := activeMessage a; sendPhoto := sendPhoto a;
     recipient := recipient a; messageText := messageText a;
     console := console a; alerts := alerts a ++ [msg] |}.

(** The initial state of the component. *)
Definition initialApp : App :=
  {| route := onboarding; userData_name := []; messages := [];
     activeMessage := None; sendPhoto := JsNull; recipient := None;
     messageText := []; console := []; alerts := [] |}.

(** The load half of the "Load + realtime subscribe" effect: the fetch
    settles with [fetchMessagesForUser]'s result; [isMounted] is the flag
    the cleanup clears. *)
Definition load (db : Backend) (fault : option SupabaseError)
    (isMounted : bool) (a : App) : App :=
  match trim (userData_name a) with
  | [] => a
  | viewerName =>
      match fetchMessagesForUser db viewerName fault with
      | inr rows =>
          if isMounted
          then setMessages
                 (fun _ => map (fun r => mapRowToMessage r (Some viewerName))
                               rows) a
          else a
      | inl err => log (console_error (str "fetchMessagesForUser") err) a
      end
  end.

(** The updater the channel handler gives to [setMessages]. *)
Definition merge (mapped : Message.t) (prev : list Message.t)
  : list Message.t :=
  match list_find (fun m => Message.id m = Message.id mapped) prev with
  | None => mapped :: prev
  | Some (idx, _) => <[idx := mapped]> prev
  end.

(** The ["postgres_changes"] handler of the channel subscribed for
    [viewerName]; [payload_new] is [payload.new]. *)
Definition on_postgres_changes (viewerName : JsString)
    (payload_new : option DbRow.t) (prev : list Message.t) : list Message.t :=
  match payload_new with
  | None => prev
  | Some row =>
      if bool_decide (DbRow.sender row <> viewerName)
         && bool_decide (DbRow.recipient row <> viewerName)
      then prev
      else merge (mapRowToMessage row (Some viewerName)) prev
  end.

(** The subscribe half of the effect: no channel without a name. *)
Definition channel_event (payload_new : option DbRow.t) (a : App) : App :=
  match trim (userData_name a) with
  | [] => a
  | viewerName => setMessages (on_postgres_changes viewerName payload_new) a
  end.

Definition DEFAULT_BODY : JsString := str "A message carried by moonlight.".

(** [messageText.trim() || "A message carried by moonlight."] *)
Definition body_of (messageText : JsString) : JsString :=
  match trim messageText with
  | [] => DEFAULT_BODY
  | text => text
  end.

(** [showSupabaseError] on the error object a helper threw: logs it, then
    alerts the first non-empty of its [message], [error_description] and
    [details], or the fallback. *)
Definition showSupabaseError (e : SupabaseError) (fallback : JsString)
    (a : App) : App :=
  alert (errorText (ThrownObject e) fallback)
        (log (console_error [] e) a).

(** What [handleSendMessage] does: nothing is inserted without a sender
    name and a recipient name. *)
Definition handleSendMessage (db : Backend) (newId created : Z)
    (fault : option SupabaseError) (a : App) : Backend * App :=
  match trim (userData_name a) with
  | [] => (db, setRoute onboarding (alert (str "Enter your name first.") a))
  | sender =>
      match recipient a with
      | None => (db, a)
      | Some name =>
          match trim name with
          | [] => (db, a)
          | recipientName =>
              match insertMessage db sender recipientName
                      (body_of (messageText a)) (sendPhoto a)
                      newId created fault with
              | (db', inr row) =>
                  let mapped := mapRowToMessage row (Some sender) in
                  (db',
                   setRoute messageSent
                     (setActiveMessage (Some mapped)
                        (setMessages (fun prev => mapped :: prev) a)))
              | (db', inl e) =>
                  (db',
                   showSupabaseError e
                     (str "Failed to send message. Check RLS policies.") a)
              end
          end
      end
  end.

(** The condition under which [handleOpenMessage] starts an unlock:
    [msg.locked || !msg.receivePhoto]. *)
Definition canUnlock (msg : Message.t) : bool :=
  Message.locked msg || negb (truthy (Message.receivePhoto msg)).

Definition handleOpenMessage (msg : option Message.t) (a : App) : App :=
  match msg with
  | None => a
  | Some m =>
      let a' := setActiveMessage (Some m) a in
      if canUnlock m then setRoute unlockCapture a' else a'
  end.

(** [userData.name || "You"] *)
Definition name_or_You (name : JsString) : JsString :=
  match name with
  | [] => You
  | _ => name
  end.

(** The [onVerifiedMoon] callback of the [unlockCapture] route.  Without
    an active message [activeMessage.id] throws inside the [try]. *)
Definition unlockVerified (db : Backend) (capture : CaptureRecord)
    (now : JsString) (fault : option SupabaseError) (a : App)
  : Backend * App :=
  let failed := str "Failed to unlock message (check Supabase + RLS)." in
  match activeMessage a with
  | None =>
      (db, alert failed
             (log (console_error []
                     {| message :=
                          Some (str "Cannot read properties of null (reading 'id')");
                        error_description := None;
                        details := None |})
                  a))
  | Some active =>
      match unlockMessage db (Message.id active) (JsObject capture)
              now fault with
      | (db', inr row) =>
          let mapped :=
            mapRowToMessage row (Some (name_or_You (userData_name a))) in
          (db',
           setRoute printing
             (setMessages
                (map (fun m => if bool_decide (Message.id m = Message.id mapped)
                               then mapped else m))
                (setActiveMessage (Some mapped) a)))
      | (db', inl e) => (db', alert failed (log (console_error [] e) a))
      end
  end.

(** ** The client and the table together

    The channel delivers the rows of the feed in any order, any number of
    times.  Other clients write to the same table through the same two
    helpers, with the capture their own [verifyMoon] produced. *)
Record World := {
  backend : Backend;
  app : App
}.

Definition initialWorld : World :=
  {| backend := {| table := []; feed := [] |}; app := initialApp |}.

Definition photo_state (v : JsValue) : Prop :=
  v = JsNull \/ exists c, v = JsObject c.

Inductive step : World -> World -> Prop :=
| step_input w a' :
    (* form input and navigation: the store is not touched *)
    messages a' = messages (app w) ->
    activeMessage a' = activeMessage (app w) ->
    photo_state (sendPhoto a') ->
    step w {| backend := backend w; app := a' |}
| step_open w m :
    In m (messages (app w)) ->
    step w {| backend := backend w;
              app := handleOpenMessage (Some m) (app w) |}
| step_load w fault isMounted :
    step w {| backend := backend w;
              app := load (backend w) fault isMounted (app w) |}
| step_event w payload_new :
    (forall row, payload_new = Some row -> In row (feed (backend w))) ->
    step w {| backend := backend w;
              app := channel_event payload_new (app w) |}
| step_send w newId created fault :
    let res := handleSendMessage (backend w) newId created fault (app w) in
    step w {| backend := fst res; app := snd res |}
| step_unlock w capture now fault :
    route (app w) = unlockCapture ->
    let res := unlockVerified (backend w) capture now fault (app w) in
    step w {| backend := fst res; app := snd res |}
| step_peer_insert w sender recipient body photo newId created fault :
    photo_state photo ->
    let res := insertMessage (backend w) sender recipient body photo
                 newId created fault in
    step w {| backend := fst res; app := app w |}
| step_peer_unlock w id capture now fault :
    let res := unlockMessage (backend w) id (JsObject capture) now fault in
    step w {| backend := fst res; app := app w |}.

Inductive reachable : World -> Prop :=
| reachable_init : reachable initialWorld
| reachable_step w w' : reachable w -> step w w' -> reachable w'.

(** ** Predicates used in the statements *)

(** A name is blank when every code unit of it is white space; the empty
    name is blank. *)
Definition blank (s : JsString) : Prop := forallb isWhiteSpace s = true.

(** A viewer identity as the application forms it: a name that [trim]
    leaves as it is and that is not empty. *)
Definition identity (v : JsString) : Prop := trim v = v /\ v <> [].

(** The lifecycle fields of a row move together: both unset, or a capture
    object and the time it was stored. *)
Definition row_inv (r : DbRow.t) : Prop :=
  (DbRow.receive_photo r = JsNull /\ DbRow.receive_at r = JsNull)
  \/ (exists c now, DbRow.receive_photo r = JsObject c
                    /\ DbRow.receive_at r = JsStr now).

Definition msg_inv (m : Message.t) : Prop :=
  (Message.receivePhoto m = JsNull /\ Message.receiveAt m = JsNull
   /\ Message.archived m = false)
  \/ (exists c now, Message.receivePhoto m = JsObject c
                    /\ Message.receiveAt m = JsStr now
                    /\ Message.archived m = true).

(** Most recent first. *)
Definition newer_first (a b : Message.t) : Prop :=
  Message.sentAt b <= Message.sentAt a.

(** The world invariant: every row the table holds or has emitted, and
    every message the client holds, has its lifecycle fields in step. *)
Definition world_inv (w : World) : Prop :=
  Forall row_inv (table (backend w))
  /\ Forall row_inv (feed (backend w))
  /\ Forall msg_inv (messages (app w))
  /\ (forall m, activeMessage (app w) = Some m -> msg_inv m).

(** The cell of [useMemo] was computed for an array the component has
    held, and holds the sort of the current array if it was computed for
    that one. *)
Definition memo_inv (r : Rendered) : Prop :=
  forall c, memo_cell r = Some c ->
            (memo_version c <= store_version r)%nat
            /\ (memo_version c = store_version r ->
                memo_value c = sortedMessages (store_messages r)).

(** ** Sample data *)

Definition aliceToBob : DbRow.t :=
  {| DbRow.id := 1;
     DbRow.sender := str "Alice";
     DbRow.recipient := str "Bob";
     DbRow.body := str "hello";
     DbRow.locked := JsBool true;
     DbRow.created_at := 1000;
     DbRow.receive_at := JsNull;
     DbRow.send_photo := JsNull;
     DbRow.receive_photo := JsNull |}.

Definition fromYou : DbRow.t :=
  {| DbRow.id := 2;
     DbRow.sender := str "You";
     DbRow.recipient := str "Bob";
     DbRow.body := str "hi";
     DbRow.locked := JsBool true;
     DbRow.created_at := 2000;
     DbRow.receive_at := JsNull;
     DbRow.send_photo := JsNull;
     DbRow.receive_photo := JsNull |}.

Definition bobCapture : CaptureRecord :=
  {| dataUrl := Some (str "data:image/jpeg;base64,AAAA");
     confidence := 0.95;
     verifiedAt := str "2024-01-02T20:00:00.000Z" |}.

Definition secondCapture : CaptureRecord :=
  {| dataUrl := Some (str "data:image/jpeg;base64,BBBB");
     confidence := 0.9;
     verifiedAt := str "2024-01-03T21:00:00.000Z" |}.

Definition skyThenMoon : list Prediction :=
  [ {| className := str "Sky"; probability := 0.26 |};
    {| className := str "moon"; probability := 0.74 |} ].

Definition heldByBob : list Message.t :=
  [ mapRowToMessage aliceToBob (Some (str "Bob"));
    mapRowToMessage fromYou (Some (str "Bob")) ].

(** Alice's letter is in the table, locked. *)
Definition lockedBackend : Backend :=
  fst (insertMessage {| table := []; feed := [] |}
         (str "Alice") (str "Bob") (str "hello") JsNull 1 1000 None).

(** Bob has unlocked it. *)
Definition unlockedBackend : Backend :=
  fst (unlockMessage lockedBackend 1 (JsObject bobCapture)
         (str "2024-01-02T20:00:01.000Z") None).

Definition bobApp : App :=
  {| route := inbox; userData_name := str "Bob"; messages := [];
     activeMessage := None; sendPhoto := JsNull; recipient := None;
     messageText := []; console := []; alerts := [] |}.

(** Bob's client loaded the letter while it was locked and has not yet
    seen the change; Bob then opens the letter. *)
Definition staleBobWorld : World :=
  {| backend := unlockedBackend;
     app := handleOpenMessage
              (Some (mapRowToMessage aliceToBob (Some (str "Bob"))))
              (load lockedBackend None true bobApp) |}.

(** Bob's client after loading the unlocked letter. *)
Definition bobWorld : World :=
  {| backend := unlockedBackend;
     app := load unlockedBackend None true bobApp |}.

(** ** The PostgREST filter value *)

(** [String(value ?? "").replace(/"/g, '\\"')]: every double quote (34)
    gets a backslash (92) in front; nothing else is changed. *)
Definition escape_quotes (s : JsString) : JsString :=
  flat_map (fun c => if (c =? 34)%N then [92; 34]%N else [c]) s.

(** [pgQuote]: [None] is a [null] or [undefined] value. *)
Definition pgQuote (value : option JsString) : JsString :=
  (34 :: escape_quotes (match value with Some v => v | None => [] end)
      ++ [34])%N.

(** ** The location offset *)

Definition isDigit (c : N) : bool := ((48 <=? c) && (c <=? 57))%N.

Definition isSign (c : N) : bool := ((c =? 43) || (c =? 45))%N.

(** The canonical form the [i] flag compares: ASCII letters in upper
    case; a code unit outside ASCII never equals an ASCII one. *)
Definition canonicalize (c : N) : N :=
  if ((97 <=? c) && (c <=? 122))%N then (c - 32)%N else c.

(** [(?:UTC|GMT)] under the [i] flag. *)
Definition isZoneWord (a b c : N) : bool :=
  let w := [canonicalize a; canonicalize b; canonicalize c] in
  bool_decide (w = str "UTC") || bool_decide (w = str "GMT").

(** The pattern [(?:UTC|GMT)\s*([+-]\d{1,2})] tried at the start of [s];
    the result is the captured group.  [\s] is the white space of
    [trim]. *)
Definition match_here (s : JsString) : option JsString :=
  match s with
  | a :: b :: c :: rest =>
      if isZoneWord a b c then
        match trimStart rest with
        | sign :: d1 :: rest' =>
            if isSign sign && isDigit d1 then
              match rest' with
              | d2 :: _ =>
                  if isDigit d2 then Some [sign; d1; d2] else Some [sign; d1]
              | [] => Some [sign; d1]
              end
            else None
        | _ => None
        end
      else None
  | _ => None
  end.

(** [location.match(re)]: the first position at which the pattern
    matches. *)
Fixpoint location_match (s : JsString) : option JsString :=
  match match_here s with
  | Some group => Some group
  | None =>
      match s with
      | [] => None
      | _ :: rest => location_match rest
      end
  end.

Definition digit_value (c : N) : Z := Z.of_N c - 48.

(** [Number(match[1])] for a sign and one or two digits. *)
Definition Number_of_group (group : JsString) : Z :=
  match group with
  | [sign; d1] =>
      (if (sign =? 45)%N then -1 else 1) * digit_value d1
  | [sign; d1; d2] =>
      (if (sign =? 45)%N then -1 else 1)
      * (10 * digit_value d1 + digit_value d2)
  | _ => 0
  end.

(** [getLocationOffsetHours]: [None] is the omitted argument, for which
    the default [""] stands.  The number is an integer of small size; a
    negative zero is written [0]. *)
Definition getLocationOffsetHours (location : option JsString) : Z :=
  match location_match (match location with Some l => l | None => [] end) with
  | None => 0
  | Some group => Z.max (-12) (Z.min 14 (Number_of_group group))
  end.

(** ** The lists of the inbox and of the archive *)

(** [messages.filter((msg) => msg.from !== "You")] *)
Definition incoming (messages : list Message.t) : list Message.t :=
  List.filter (fun msg => negb (bool_decide (Message.from msg = str "You")))
    messages.

(** [incoming.filter((msg) => (msg.locked || !msg.receivePhoto) &&
    !msg.archived)] *)
Definition pending (messages : list Message.t) : list Message.t :=
  List.filter
    (fun msg => (Message.locked msg
                 || negb (truthy (Message.receivePhoto msg)))
                && negb (Message.archived msg))
    (incoming messages).

(** [messages.filter((msg) => msg.from === "You")] *)
Definition sent (messages : list Message.t) : list Message.t :=
  List.filter (fun msg => bool_decide (Message.from msg = str "You")) messages.

(** The status shown for a sent letter: [msg.receivePhoto ? "Opened" :
    "Waiting..."]. *)
Definition sent_status (msg : Message.t) : JsString :=
  if truthy (Message.receivePhoto msg) then str "Opened"
  else str "Waiting...".

(** [messages.filter((msg) => msg.receivePhoto).sort(...)] of
    [GalleryScreen]. *)
Definition galleryItems (messages : list Message.t) : list Message.t :=
  Array_sort bySentAtDesc
    (List.filter (fun msg => truthy (Message.receivePhoto msg)) messages).

(** ** The exhibition pair *)

Definition EXHIBITION_A : JsString := str "Person A".
Definition EXHIBITION_B : JsString := str "Person B".

Definition EXHIBITION_MESSAGE : JsString :=
  str "Lorem ipsum dolor sit amet, consectetur adipiscing elit. Sed do eiusmod tempor incididunt ut labore et dolore magna aliqua. Ut enim ad minim veniam, quis nostrud exercitation ullamco laboris nisi ut aliquip ex ea commodo consequat.".

Definition isExhibitionUser (name : JsString) : bool :=
  bool_decide (name = EXHIBITION_A) || bool_decide (name = EXHIBITION_B).

Definition getLockedCounterparty (name : JsString) : option JsString :=
  if bool_decide (name = EXHIBITION_A) then Some EXHIBITION_B
  else if bool_decide (name = EXHIBITION_B) then Some EXHIBITION_A
  else None.

(** [handleSendMessage] of the exhibition build: the counterparty, when
    there is one, replaces the chosen recipient, and the fixed text
    replaces the composed one. *)
Definition handleSendMessage_exhibition (db : Backend) (newId created : Z)
    (fault : option SupabaseError) (a : App) : Backend * App :=
  match trim (userData_name a) with
  | [] => (db, setRoute onboarding (alert (str "Enter your name first.") a))
  | sender =>
      let recipientName :=
        match getLockedCounterparty sender with
        | Some forced => forced
        | None =>
            match recipient a with
            | Some name => trim name
            | None => []
            end
        end in
      match recipientName with
      | [] => (db, a)
      | _ =>
          let bodyText :=
            if isExhibitionUser sender then EXHIBITION_MESSAGE
            else body_of (messageText a) in
          match insertMessage db sender recipientName bodyText (sendPhoto a)
                  newId created fault with
          | (db', inr row) =>
              let mapped := mapRowToMessage row (Some sender) in
              (db',
               setRoute messageSent
                 (setActiveMessage (Some mapped)
                    (setMessages (fun prev => mapped :: prev) a)))
          | (db', inl e) =>
              (db',
               showSupabaseError e
                 (str "Failed to send message. Check RLS policies.") a)
          end
      end
  end.

(** ** More predicates used in the statements *)

(** The fields of a row that identify the letter. *)
Definition identity_fields (r : DbRow.t)
  : Z * JsString * JsString * JsString * Z * JsValue :=
  (DbRow.id r, DbRow.sender r, DbRow.recipient r, DbRow.body r,
   DbRow.created_at r, DbRow.send_photo r).

(** A row is locked with nothing received, or unlocked with a capture and
    the time it was stored. *)
Definition row_life (r : DbRow.t) : Prop :=
  (DbRow.locked r = JsBool true /\ DbRow.receive_photo r = JsNull
   /\ DbRow.receive_at r = JsNull)
  \/ (DbRow.locked r = JsBool false
      /\ exists c now, DbRow.receive_photo r = JsObject c
                       /\ DbRow.receive_at r = JsStr now).

Definition msg_life (m : Message.t) : Prop :=
  (Message.locked m = true /\ Message.receivePhoto m = JsNull
   /\ Message.archived m = false)
  \/ (Message.locked m = false /\ Message.archived m = true
      /\ exists c, Message.receivePhoto m = JsObject c).

Definition world_life (w : World) : Prop :=
  Forall row_life (table (backend w))
  /\ Forall row_life (feed (backend w))
  /\ Forall msg_life (messages (app w))
  /\ (forall m, activeMessage (app w) = Some m -> msg_life m).

(** No two held messages have the same id. *)
Definition distinct_ids (messages : list Message.t) : Prop :=
  NoDup (map Message.id messages).

(** [z] is the integer nearest to the fraction [n / d], the upper one of
    two that are equally near: [z - 1/2 <= n / d < z + 1/2]. *)
Definition nearest_integer (n d z : Z) : Prop :=
  (2 * z - 1) * d <= 2 * n < (2 * z + 1) * d.

(** [r] is the percentage of [prob]: the float product [prob * 100],
    whose finite non-zero values are [n * 2 ^ e] for integers [n] and
    [e], brought to the nearest integer; [NaN] and the infinities stay
    what they are. *)
Definition percentage_of (prob : float) (r : Rounded) : Prop :=
  match Prim2SF (PrimFloat.mul prob 100) with
  | S754_nan => r = RNaN
  | S754_infinity negative => r = RInfinity negative
  | S754_zero _ => r = RInt 0
  | S754_finite negative m e =>
      let n := if negative then Z.neg m else Z.pos m in
      exists z,
        r = RInt z
        /\ nearest_integer (n * 2 ^ Z.max 0 e) (2 ^ Z.max 0 (- e)) z
  end.

(** An error field that [||] passes over: absent or the empty string. *)
Definition textless (field : option JsString) : Prop :=
  field = None \/ field = Some [].

(** The name has no backslash: [pgQuote] then sends it with its quotes
    escaped and every backslash of the text sent escapes a quote. *)
Definition no_backslash (name : JsString) : Prop :=
  Forall (fun c => c <> 92%N) name.

(** ** More sample data *)

(** Bob, holding two letters, is about to send "hi" to Alice. *)
Definition bobComposing : App :=
  {| route := compose; userData_name := str "Bob";
     messages := heldByBob; activeMessage := None;
     sendPhoto := JsNull; recipient := Some (str "Alice");
     messageText := str "hi"; console := []; alerts := [] |}.

(** Bob again, with nothing but white space typed. *)
Definition bobComposingBlank : App :=
  {| route := compose; userData_name := str "Bob";
     messages := heldByBob; activeMessage := None;
     sendPhoto := JsNull; recipient := Some (str " Alice ");
     messageText := str "  "; console := []; alerts := [] |}.

(** Two errors of a response: one with a message, one with details only. *)
Definition permissionDenied : SupabaseError :=
  {| message := Some (str "permission denied");
     error_description := None;
     details := None |}.

Definition detailsOnly : SupabaseError :=
  {| message := Some [];
     error_description := None;
     details := Some (str "Key (id)=(7) already exists.") |}.

(** * Properties *)

(** ** Trimming *)

Lemma trimStart_all_white s :
  forallb isWhiteSpace s = true -> trimStart s = [].
Proof.
  induction s as [|c s IH]; simpl; [reflexivity|].
  intros H. apply andb_prop in H as [Hc Hs]. rewrite Hc. auto.
Qed.

Lemma trimStart_nil_inv s :
  trimStart s = [] -> forallb isWhiteSpace s = true.
Proof.
  induction s as [|c s IH]; simpl; [reflexivity|].
  destruct (isWhiteSpace c); simpl; [exact IH | discriminate].
Qed.

(** What [trimStart] leaves is empty or starts with a code unit that is
    not white space. *)
Lemma trimStart_head s :
  match trimStart s with
  | [] => True
  | c :: _ => isWhiteSpace c = false
  end.
Proof.
  induction s as [|c s IH]; simpl; [exact I|].
  destruct (isWhiteSpace c) eqn:Hc; [exact IH | exact Hc].
Qed.

Lemma forallb_rev {A} (f : A -> bool) (l : list A) :
  forallb f (rev l) = forallb f l.
Proof.
  induction l as [|x l IH]; simpl; [reflexivity|].
  rewrite forallb_app, IH. simpl. rewrite andb_true_r. apply andb_comm.
Qed.

Lemma trim_all_white s :
  forallb isWhiteSpace s = true -> trim s = [].
Proof.
  intros H. unfold trim, trimEnd. rewrite (trimStart_all_white s H).
  reflexivity.
Qed.

Lemma trim_nil_inv s :
  trim s = [] -> forallb isWhiteSpace s = true.
Proof.
  unfold trim, trimEnd. intros H.
  assert (Hr : trimStart (rev (trimStart s)) = []).
  { rewrite <- (rev_involutive (trimStart (rev (trimStart s)))), H.
    reflexivity. }
  apply trimStart_nil_inv in Hr. rewrite forallb_rev in Hr.
  pose proof (trimStart_head s) as Hh.
  destruct (trimStart s) as [|c t] eqn:Ht.
  - apply trimStart_nil_inv. exact Ht.
  - simpl in Hr. rewrite Hh in Hr. discriminate.
Qed.

Lemma trim_blank s : trim s = [] <-> blank s.
Proof. split; [apply trim_nil_inv | apply trim_all_white]. Qed.

Lemma trim_not_blank s : ~ blank s -> trim s <> [].
Proof. intros H Ht. apply H, trim_nil_inv, Ht. Qed.

Lemma not_blank_cons c t : isWhiteSpace c = false -> ~ blank (c :: t).
Proof. unfold blank. cbn. intros -> H. discriminate. Qed.

Lemma viewer_of_blank s : blank s -> viewer_of (Some s) = You.
Proof. intros H. unfold viewer_of. rewrite (trim_all_white s H). reflexivity. Qed.

Lemma viewer_of_identity v : identity v -> viewer_of (Some v) = v.
Proof.
  intros [Ht Hne]. unfold viewer_of. rewrite Ht.
  destruct v; [contradiction | reflexivity].
Qed.

Lemma body_of_nonempty text : body_of text <> [].
Proof.
  unfold body_of. destruct (trim text) eqn:E; [|discriminate].
  vm_compute. discriminate.
Qed.

(** ** Rows, values and the projection *)

Lemma mapRowToMessage_inv row viewerName :
  row_inv row -> msg_inv (mapRowToMessage row viewerName).
Proof.
  intros [[Hp Ha] | (c & now & Hp & Ha)]; [left | right; exists c, now];
    simpl; rewrite Hp, Ha; auto.
Qed.

Lemma msg_inv_receiveAt m :
  msg_inv m -> non_null (Message.receiveAt m) = non_null (Message.receivePhoto m).
Proof.
  intros [(Hp & Ha & _) | (c & now & Hp & Ha & _)]; rewrite Hp, Ha; reflexivity.
Qed.

Lemma msg_inv_archived m :
  msg_inv m -> Message.archived m = non_null (Message.receivePhoto m).
Proof.
  intros [(Hp & _ & Hr) | (c & now & Hp & _ & Hr)]; rewrite Hp, Hr; reflexivity.
Qed.

Lemma row_inv_receive_at r :
  row_inv r -> non_null (DbRow.receive_at r) = non_null (DbRow.receive_photo r).
Proof.
  intros [[Hp Ha] | (c & now & Hp & Ha)]; rewrite Hp, Ha; reflexivity.
Qed.

(** ** The stable sort *)

Section ArraySortFacts.
Context {A : Type} (compareFn : A -> A -> Z).

Lemma sort_insert_perm x l :
  Permutation (sort_insert compareFn x l) (x :: l).
Proof.
  induction l as [|y l IH]; simpl; [reflexivity|].
  destruct (0 <? compareFn x y); [|reflexivity].
  rewrite IH. apply perm_swap.
Qed.

Lemma Array_sort_perm l : Permutation (Array_sort compareFn l) l.
Proof.
  induction l as [|x l IH]; simpl; [reflexivity|].
  rewrite sort_insert_perm. apply perm_skip, IH.
Qed.

Lemma Array_sort_In x l : In x (Array_sort compareFn l) <-> In x l.
Proof.
  split; apply Permutation_in;
    [apply Array_sort_perm | symmetry; apply Array_sort_perm].
Qed.
End ArraySortFacts.

Lemma sort_insert_newer_first x l :
  StronglySorted newer_first l ->
  StronglySorted newer_first (sort_insert bySentAtDesc x l).
Proof.
  induction 1 as [|y l Hl IH Hy]; simpl.
  - constructor; constructor.
  - unfold bySentAtDesc at 1.
    destruct (Z.ltb_spec 0 (Message.sentAt y - Message.sentAt x)) as [Hlt|Hge].
    + constructor; [exact IH|].
      rewrite (Forall_forall (newer_first y)). intros z Hz.
      rewrite (sort_insert_perm bySentAtDesc x l) in Hz.
      apply elem_of_cons in Hz as [-> | Hz].
      * unfold newer_first. lia.
      * rewrite (Forall_forall (newer_first y)) in Hy. auto.
    + constructor; [constructor; assumption|].
      constructor; [unfold newer_first; lia|].
      rewrite (Forall_forall (newer_first y)) in Hy.
      rewrite (Forall_forall (newer_first x)). intros z Hz.
      specialize (Hy z Hz). unfold newer_first in *. lia.
Qed.

Lemma sortedMessages_newer_first l :
  StronglySorted newer_first (sortedMessages l).
Proof.
  induction l as [|x l IH]; simpl; [constructor|].
  apply sort_insert_newer_first, IH.
Qed.

(** Stability: messages of one [sentAt] keep the order they are held in. *)
Lemma sort_insert_stable t x l :
  List.filter (fun m => Message.sentAt m =? t) (sort_insert bySentAtDesc x l)
  = List.filter (fun m => Message.sentAt m =? t) (x :: l).
Proof.
  induction l as [|y l IH]; simpl; [reflexivity|].
  unfold bySentAtDesc at 1.
  destruct (Z.ltb_spec 0 (Message.sentAt y - Message.sentAt x)) as [Hlt|Hge];
    [|reflexivity].
  cbn [List.filter]. rewrite IH. cbn [List.filter].
  destruct (Z.eqb_spec (Message.sentAt y) t), (Z.eqb_spec (Message.sentAt x) t);
    try reflexivity; lia.
Qed.

Lemma sortedMessages_stable t l :
  List.filter (fun m => Message.sentAt m =? t) (sortedMessages l)
  = List.filter (fun m => Message.sentAt m =? t) l.
Proof.
  induction l as [|x l IH]; [reflexivity|].
  unfold sortedMessages in *. cbn [Array_sort]. rewrite sort_insert_stable.
  cbn [List.filter]. rewrite IH. reflexivity.
Qed.

(** ** The merge of the channel handler *)

Lemma merge_idempotent mapped prev :
  merge mapped (merge mapped prev) = merge mapped prev.
Proof.
  destruct (list_find (fun m => Message.id m = Message.id mapped) prev)
    as [[idx x]|] eqn:Hfind.
  - assert (Hm : merge mapped prev = <[idx:=mapped]> prev)
      by (unfold merge; rewrite Hfind; reflexivity).
    rewrite Hm.
    apply list_find_Some in Hfind as (Hidx & Hx & Hbefore).
    assert (Hlt : (idx < length prev)%nat) by (eapply lookup_lt_Some; eauto).
    assert (Hf : list_find (fun m => Message.id m = Message.id mapped)
                   (<[idx:=mapped]> prev) = Some (idx, mapped)).
    { apply list_find_Some. split; [|split].
      - apply list_lookup_insert_eq. exact Hlt.
      - reflexivity.
      - intros j y Hj Hji. rewrite list_lookup_insert_ne in Hj by lia.
        eauto. }
    unfold merge. rewrite Hf. apply list_insert_insert_eq.
  - assert (Hm : merge mapped prev = mapped :: prev)
      by (unfold merge; rewrite Hfind; reflexivity).
    rewrite Hm. unfold merge. simpl. case_decide; [reflexivity | congruence].
Qed.

Lemma on_postgres_changes_idempotent viewerName payload_new prev :
  on_postgres_changes viewerName payload_new
    (on_postgres_changes viewerName payload_new prev)
  = on_postgres_changes viewerName payload_new prev.
Proof.
  unfold on_postgres_changes. destruct payload_new as [row|]; [|reflexivity].
  destruct (_ && _); [reflexivity | apply merge_idempotent].
Qed.

Lemma merge_absent mapped prev :
  Forall (fun m => Message.id m <> Message.id mapped) prev ->
  merge mapped prev = mapped :: prev.
Proof.
  intros H. unfold merge.
  destruct (list_find _ prev) as [[idx x]|] eqn:Hfind; [|reflexivity].
  apply list_find_Some in Hfind as (Hidx & Hx & _).
  rewrite (Forall_forall (fun m => Message.id m <> Message.id mapped)) in H.
  exfalso. apply (H x); [|exact Hx].
  apply list_elem_of_lookup. eauto.
Qed.

Lemma merge_present mapped before m after :
  Forall (fun m => Message.id m <> Message.id mapped) before ->
  Message.id m = Message.id mapped ->
  merge mapped (before ++ m :: after) = before ++ mapped :: after.
Proof.
  intros Hb Hm. unfold merge.
  assert (Hf : list_find (fun x => Message.id x = Message.id mapped)
                 (before ++ m :: after) = Some (length before, m)).
  { apply list_find_Some. split; [|split].
    - apply list_lookup_middle. reflexivity.
    - exact Hm.
    - intros j y Hj Hlt. rewrite lookup_app_l in Hj by exact Hlt.
      rewrite (Forall_forall (fun m => Message.id m <> Message.id mapped)) in Hb.
      apply Hb, list_elem_of_lookup. eauto. }
  rewrite Hf.
  rewrite <- (Nat.add_0_r (length before)), insert_app_r. reflexivity.
Qed.

Lemma merge_Forall (P : Message.t -> Prop) mapped prev :
  P mapped -> Forall P prev -> Forall P (merge mapped prev).
Proof.
  intros Hm Hp. unfold merge.
  destruct (list_find _ prev) as [[idx x]|].
  - apply Forall_insert; assumption.
  - constructor; assumption.
Qed.

(** ** The two writes *)

Lemma insertMessage_cases db sender recipient body photo newId created fault :
  let res := insertMessage db sender recipient body photo newId created fault in
  (fst res = db /\ exists e, snd res = inl e)
  \/ (exists row,
        res = ({| table := table db ++ [row]; feed := feed db ++ [row] |},
               inr row)
        /\ DbRow.body row = body
        /\ DbRow.receive_photo row = JsNull
        /\ DbRow.receive_at row = JsNull).
Proof.
  destruct fault as [e|]; simpl.
  - left. eauto.
  - right. eexists. repeat split.
Qed.

Lemma unlockMessage_cases db id photo now fault :
  let res := unlockMessage db id photo now fault in
  (fst res = db /\ exists e, snd res = inl e)
  \/ (exists r,
        List.filter (fun r => DbRow.id r =? id) (table db) = [r]
        /\ fault = None
        /\ res = ({| table := map (unlock_in id photo now) (table db);
                     feed := feed db ++ [unlock_update photo now r] |},
                  inr (unlock_update photo now r))).
Proof.
  unfold unlockMessage. destruct fault as [e|]; simpl.
  - left. eauto.
  - destruct (List.filter _ (table db)) as [|r [|r' rest]] eqn:Hf; simpl.
    + left. eauto.
    + right. exists r. repeat split.
    + left. eauto.
Qed.

Lemma filter_id_unlock_in id photo now (l : list DbRow.t) :
  List.filter (fun r => DbRow.id r =? id) (map (unlock_in id photo now) l)
  = map (unlock_update photo now) (List.filter (fun r => DbRow.id r =? id) l).
Proof.
  induction l as [|r l IH]; [reflexivity|].
  cbn [map List.filter]. unfold unlock_in at 1 2.
  destruct (DbRow.id r =? id) eqn:E.
  - cbn [unlock_update DbRow.id]. rewrite E, IH. reflexivity.
  - rewrite E, IH. reflexivity.
Qed.

(** No guard on the second write: once an unlock has gone through, any
    further unlock of the same id goes through as well. *)
Lemma unlockMessage_again db id photo now fault db' row photo' now' :
  unlockMessage db id photo now fault = (db', inr row) ->
  exists db'',
    unlockMessage db' id photo' now' None
    = (db'', inr (unlock_update photo' now' row)).
Proof.
  intros H.
  destruct (unlockMessage_cases db id photo now fault)
    as [[_ [e He]] | (r & Hf & _ & Hres)].
  - rewrite H in He. discriminate.
  - rewrite H in Hres. injection Hres as -> ->.
    unfold unlockMessage. cbn [table feed].
    rewrite filter_id_unlock_in, Hf. cbn [map]. eauto.
Qed.

(** The helper itself accepts a missing photo (its [?? null] default) and
    then stores the time alone; no caller passes one, each passes the
    capture object it was given. *)
Lemma unlockMessage_without_capture db id receivePhoto now fault db' row :
  nullish receivePhoto = true ->
  unlockMessage db id receivePhoto now fault = (db', inr row) ->
  DbRow.receive_photo row = JsNull /\ DbRow.receive_at row = JsStr now.
Proof.
  intros Hn H.
  destruct (unlockMessage_cases db id receivePhoto now fault)
    as [[_ [e He]] | (r & _ & _ & Hres)]; rewrite H in *; [discriminate|].
  injection Hres as _ ->. cbn. unfold nullish_or. rewrite Hn. auto.
Qed.

Lemma unlock_update_inv c now r : row_inv (unlock_update (JsObject c) now r).
Proof. right. exists c, now. split; reflexivity. Qed.

Lemma unlock_in_inv id c now r :
  row_inv r -> row_inv (unlock_in id (JsObject c) now r).
Proof.
  intros H. unfold unlock_in.
  destruct (DbRow.id r =? id); [apply unlock_update_inv | exact H].
Qed.

Lemma unlockMessage_inv db id c now fault :
  Forall row_inv (table db) -> Forall row_inv (feed db) ->
  let res := unlockMessage db id (JsObject c) now fault in
  Forall row_inv (table (fst res)) /\ Forall row_inv (feed (fst res))
  /\ (forall row, snd res = inr row -> row_inv row).
Proof.
  intros Ht Hfd.
  destruct (unlockMessage_cases db id (JsObject c) now fault)
    as [[Hdb [e He]] | (r & Hf & _ & Hres)]; simpl.
  - rewrite Hdb, He. repeat split; auto. discriminate.
  - rewrite Hres. simpl. repeat split.
    + apply Forall_map. eapply Forall_impl; [exact Ht|].
      intros x Hx. apply unlock_in_inv, Hx.
    + apply Forall_app. split; [exact Hfd|].
      constructor; [apply unlock_update_inv | constructor].
    + intros row [= <-]. apply unlock_update_inv.
Qed.

Lemma insertMessage_inv db sender recipient body photo newId created fault :
  Forall row_inv (table db) -> Forall row_inv (feed db) ->
  let res := insertMessage db sender recipient body photo newId created fault in
  Forall row_inv (table (fst res)) /\ Forall row_inv (feed (fst res))
  /\ (forall row, snd res = inr row -> row_inv row).
Proof.
  intros Ht Hfd.
  destruct (insertMessage_cases db sender recipient body photo newId created fault)
    as [[Hdb [e He]] | (r & Hres & _ & Hp & Ha)]; simpl.
  - rewrite Hdb, He. repeat split; auto. discriminate.
  - assert (Hr : row_inv r) by (left; split; assumption).
    rewrite Hres. simpl. repeat split.
    + apply Forall_app. split; [exact Ht | constructor; [exact Hr | constructor]].
    + apply Forall_app. split; [exact Hfd | constructor; [exact Hr | constructor]].
    + intros row [= <-]. exact Hr.
Qed.

(** ** The handlers, case by case *)

Lemma handleSendMessage_cases db newId created fault a :
  let res := handleSendMessage db newId created fault a in
  (fst res = db /\ messages (snd res) = messages a
   /\ activeMessage (snd res) = activeMessage a)
  \/ (exists sender recipientName row,
        sender = trim (userData_name a) /\ sender <> []
        /\ insertMessage db sender recipientName (body_of (messageText a))
             (sendPhoto a) newId created fault = (fst res, inr row)
        /\ messages (snd res) = mapRowToMessage row (Some sender) :: messages a
        /\ activeMessage (snd res) = Some (mapRowToMessage row (Some sender))
        /\ route (snd res) = messageSent).
Proof.
  unfold handleSendMessage.
  destruct (trim (userData_name a)) as [|c sender] eqn:Hs; [left; auto|].
  destruct (recipient a) as [name|]; [|left; auto].
  destruct (trim name) as [|d recipientName]; [left; auto|].
  destruct (insertMessage_cases db (c :: sender) (d :: recipientName)
              (body_of (messageText a)) (sendPhoto a) newId created fault)
    as [[Hdb [e He]] | (row & Hres & _)].
  - destruct (insertMessage _ _ _ _ _ _ _ _) as [db' res]. simpl in *.
    subst. left. auto.
  - rewrite Hres. simpl. right.
    exists (c :: sender), (d :: recipientName), row.
    repeat split; auto; discriminate.
Qed.

Lemma unlockVerified_cases db capture now fault a :
  let res := unlockVerified db capture now fault a in
  (fst res = db /\ messages (snd res) = messages a
   /\ activeMessage (snd res) = activeMessage a)
  \/ (exists active row mapped,
        activeMessage a = Some active
        /\ unlockMessage db (Message.id active) (JsObject capture) now fault
           = (fst res, inr row)
        /\ mapped = mapRowToMessage row (Some (name_or_You (userData_name a)))
        /\ messages (snd res)
           = map (fun m => if bool_decide (Message.id m = Message.id mapped)
                           then mapped else m) (messages a)
        /\ activeMessage (snd res) = Some mapped
        /\ route (snd res) = printing).
Proof.
  unfold unlockVerified.
  destruct (activeMessage a) as [active|] eqn:Ha; [|left; auto].
  destruct (unlockMessage_cases db (Message.id active) (JsObject capture)
              now fault) as [[Hdb [e He]] | (r & _ & _ & Hres)].
  - destruct (unlockMessage _ _ _ _ _) as [db' res]. simpl in *.
    subst. left. auto.
  - rewrite Hres. cbn [fst snd]. right.
    exists active, (unlock_update (JsObject capture) now r),
      (mapRowToMessage (unlock_update (JsObject capture) now r)
         (Some (name_or_You (userData_name a)))).
    repeat split; try reflexivity. exact Hres.
Qed.

(** ** The invariant of the lifecycle fields *)

Lemma world_inv_init : world_inv initialWorld.
Proof. repeat split; try constructor. discriminate. Qed.

Lemma load_inv db fault isMounted a :
  Forall row_inv (table db) -> Forall msg_inv (messages a) ->
  Forall msg_inv (messages (load db fault isMounted a))
  /\ activeMessage (load db fault isMounted a) = activeMessage a.
Proof.
  intros Ht Hm. unfold load.
  destruct (trim (userData_name a)) as [|c v]; [auto|].
  unfold fetchMessagesForUser. destruct fault as [e|]; [auto|].
  destruct isMounted; [|auto].
  split; [|reflexivity]. simpl. apply Forall_map.
  rewrite (Forall_forall (fun r => msg_inv (mapRowToMessage r _))).
  intros r Hr. apply mapRowToMessage_inv.
  apply list_elem_of_In, Array_sort_In, filter_In in Hr as [Hr _].
  rewrite (Forall_forall row_inv) in Ht. apply Ht, list_elem_of_In, Hr.
Qed.

Lemma channel_event_inv payload_new fd a :
  (forall row, payload_new = Some row -> In row fd) ->
  Forall row_inv fd -> Forall msg_inv (messages a) ->
  Forall msg_inv (messages (channel_event payload_new a))
  /\ activeMessage (channel_event payload_new a) = activeMessage a.
Proof.
  intros Hin Hfd Hm. unfold channel_event.
  destruct (trim (userData_name a)) as [|c v]; [auto|].
  split; [|reflexivity]. simpl. unfold on_postgres_changes.
  destruct payload_new as [row|]; [|exact Hm].
  destruct (_ && _); [exact Hm|].
  apply merge_Forall; [|exact Hm].
  apply mapRowToMessage_inv.
  rewrite (Forall_forall row_inv) in Hfd.
  apply Hfd, list_elem_of_In, Hin. reflexivity.
Qed.

Lemma world_inv_step w w' : step w w' -> world_inv w -> world_inv w'.
Proof.
  intros Hstep (Ht & Hfd & Hm & Ha).
  destruct Hstep as
    [w a' Hmsg Hact _ | w m Hin | w fault isMounted | w payload_new Hin
    | w newId created fault res | w capture now fault _ res
    | w sender recipient body photo newId created fault _ res
    | w id capture now fault res]; unfold world_inv; cbn [backend app].
  - rewrite Hmsg, Hact. auto.
  - repeat split; auto.
    + unfold handleOpenMessage. destruct (canUnlock m); exact Hm.
    + intros m' Hm'.
      assert (Some m = Some m') as [= <-].
      { rewrite <- Hm'. unfold handleOpenMessage.
        destruct (canUnlock m); reflexivity. }
      rewrite (Forall_forall msg_inv) in Hm. apply Hm, list_elem_of_In, Hin.
  - destruct (load_inv (backend w) fault isMounted (app w) Ht Hm) as [H1 H2].
    rewrite H2. auto.
  - destruct (channel_event_inv payload_new _ (app w) Hin Hfd Hm) as [H1 H2].
    rewrite H2. auto.
  - destruct (handleSendMessage_cases (backend w) newId created fault (app w))
      as [(Hdb & Hms & Hac) | (s & rn & row & _ & _ & Hins & Hms & Hac & _)];
      fold res in Hdb, Hms, Hac || fold res in Hins, Hms, Hac.
    + rewrite Hdb, Hms, Hac. auto.
    + pose proof (insertMessage_inv (backend w) s rn (body_of (messageText (app w)))
                    (sendPhoto (app w)) newId created fault Ht Hfd) as Hinv.
      cbv zeta in Hinv. rewrite Hins in Hinv. cbn [fst snd] in Hinv.
      destruct Hinv as (Ht' & Hfd' & Hrow).
      assert (Hmapped : msg_inv (mapRowToMessage row (Some s)))
        by (apply mapRowToMessage_inv, Hrow; reflexivity).
      rewrite Hms, Hac. repeat split; auto.
      intros m [= <-]. exact Hmapped.
  - destruct (unlockVerified_cases (backend w) capture now fault (app w))
      as [(Hdb & Hms & Hac)
         | (active & row & mapped & _ & Hunl & Hmap & Hms & Hac & _)];
      fold res in Hdb, Hms, Hac || fold res in Hunl, Hms, Hac.
    + rewrite Hdb, Hms, Hac. auto.
    + pose proof (unlockMessage_inv (backend w) (Message.id active) capture
                    now fault Ht Hfd) as Hinv.
      cbv zeta in Hinv. rewrite Hunl in Hinv. cbn [fst snd] in Hinv.
      destruct Hinv as (Ht' & Hfd' & Hrow).
      assert (Hmapped : msg_inv mapped)
        by (subst mapped; apply mapRowToMessage_inv, Hrow; reflexivity).
      rewrite Hms, Hac. repeat split; auto.
      * apply Forall_map. eapply Forall_impl; [exact Hm|].
        intros x Hx. simpl. case_bool_decide; assumption.
      * intros m [= <-]. exact Hmapped.
  - destruct (insertMessage_inv (backend w) sender recipient body photo
                newId created fault Ht Hfd) as (Ht' & Hfd' & _).
    auto.
  - destruct (unlockMessage_inv (backend w) id capture now fault Ht Hfd)
      as (Ht' & Hfd' & _).
    auto.
Qed.

Lemma reachable_inv w : reachable w -> world_inv w.
Proof.
  induction 1 as [|w w' _ IH Hstep];
    [apply world_inv_init | eapply world_inv_step; eauto].
Qed.

Lemma bobWorld_reachable : reachable bobWorld.
Proof.
  assert (H1 : reachable {| backend := lockedBackend; app := initialApp |}).
  { exact (reachable_step _ _ reachable_init
             (step_peer_insert initialWorld (str "Alice") (str "Bob")
                (str "hello") JsNull 1 1000 None (or_introl eq_refl))). }
  assert (H2 : reachable {| backend := unlockedBackend; app := initialApp |}).
  { exact (reachable_step _ _ H1
             (step_peer_unlock {| backend := lockedBackend; app := initialApp |}
                1 bobCapture (str "2024-01-02T20:00:01.000Z") None)). }
  assert (H3 : reachable {| backend := unlockedBackend; app := bobApp |}).
  { exact (reachable_step _ _ H2
             (step_input {| backend := unlockedBackend; app := initialApp |}
                bobApp eq_refl eq_refl (or_introl eq_refl))). }
  exact (reachable_step _ _ H3
           (step_load {| backend := unlockedBackend; app := bobApp |}
              None true)).
Qed.

(** * The claims *)

(** C4: the viewer projection of [mapRowToMessage].  With [viewer] the
    name the function compares with (the trimmed [viewerName], or "You"),
    [isSender] is [sender == viewer], [from] is "You" for the sender and
    the sender otherwise, [to] is the recipient for the sender and "You"
    otherwise; a viewer identity is compared as it is; for the row from
    Alice to Bob, Alice sees from "You" to "Bob" and Bob sees from "Alice"
    to "You". *)
Theorem mapRowToMessage_viewer_projection :
  (forall row viewerName,
     let isSender := bool_decide (DbRow.sender row = viewer_of viewerName) in
     Message.from (mapRowToMessage row viewerName)
     = (if isSender then str "You" else DbRow.sender row)
     /\ Message.to (mapRowToMessage row viewerName)
        = (if isSender then DbRow.recipient row else str "You"))
  /\ (forall row viewer,
        identity viewer ->
        let isSender := bool_decide (DbRow.sender row = viewer) in
        Message.from (mapRowToMessage row (Some viewer))
        = (if isSender then str "You" else DbRow.sender row)
        /\ Message.to (mapRowToMessage row (Some viewer))
           = (if isSender then DbRow.recipient row else str "You"))
  /\ (forall row,
        DbRow.sender row = str "Alice" -> DbRow.recipient row = str "Bob" ->
        Message.from (mapRowToMessage row (Some (str "Alice"))) = str "You"
        /\ Message.to (mapRowToMessage row (Some (str "Alice"))) = str "Bob"
        /\ Message.from (mapRowToMessage row (Some (str "Bob"))) = str "Alice"
        /\ Message.to (mapRowToMessage row (Some (str "Bob"))) = str "You").
Proof.
  split; [|split].
  - intros row viewerName. split; reflexivity.
  - intros row viewer Hid. cbv zeta.
    unfold mapRowToMessage. cbn [Message.from Message.to].
    rewrite (viewer_of_identity viewer Hid). split; reflexivity.
  - intros row Hs Hr. unfold mapRowToMessage. cbn [Message.from Message.to].
    rewrite Hs, Hr. vm_compute. auto.
Qed.

Lemma mapRowToMessage_viewer_projection_witness :
  identity (str "Alice")
  /\ Message.from (mapRowToMessage aliceToBob (Some (str "Alice"))) = str "You"
  /\ Message.to (mapRowToMessage aliceToBob (Some (str "Alice"))) = str "Bob".
Proof.
  assert (Hid : identity (str "Alice")) by (split; [reflexivity | discriminate]).
  split; [exact Hid|].
  destruct mapRowToMessage_viewer_projection as (_ & H & _).
  exact (H aliceToBob (str "Alice") Hid).
Defined.

(** C10: with an [undefined], empty or white-space-only viewer name the
    row is projected as for the viewer "You": a row whose sender is the
    string "You" is shown as sent by the viewer (from "You", to its
    recipient), every other row as received (from its sender, to "You"). *)
Theorem mapRowToMessage_unnamed_viewer (row : DbRow.t)
    (viewerName : option JsString) :
  viewerName = None \/ (exists s, viewerName = Some s /\ blank s) ->
  mapRowToMessage row viewerName = mapRowToMessage row (Some (str "You"))
  /\ (DbRow.sender row = str "You" ->
      Message.from (mapRowToMessage row viewerName) = str "You"
      /\ Message.to (mapRowToMessage row viewerName) = DbRow.recipient row)
  /\ (DbRow.sender row <> str "You" ->
      Message.from (mapRowToMessage row viewerName) = DbRow.sender row
      /\ Message.to (mapRowToMessage row viewerName) = str "You").
Proof.
  intros H.
  assert (Hv : viewer_of viewerName = You).
  { destruct H as [-> | (s & -> & Hs)];
      [reflexivity | apply viewer_of_blank, Hs]. }
  unfold mapRowToMessage. rewrite Hv.
  change (viewer_of (Some (str "You"))) with You.
  cbn [Message.from Message.to]. change (str "You") with You.
  split; [reflexivity|]. split; intros Hs.
  - rewrite bool_decide_eq_true_2 by exact Hs. auto.
  - rewrite bool_decide_eq_false_2 by exact Hs. auto.
Qed.

Lemma mapRowToMessage_unnamed_viewer_witness :
  (Some (str "   ") = None
   \/ exists s, Some (str "   ") = Some s /\ blank s)
  /\ Message.from (mapRowToMessage fromYou (Some (str "   "))) = str "You"
  /\ Message.to (mapRowToMessage fromYou (Some (str "   "))) = str "Bob"
  /\ Message.from (mapRowToMessage aliceToBob (Some (str "   "))) = str "Alice"
  /\ Message.to (mapRowToMessage aliceToBob (Some (str "   "))) = str "You".
Proof.
  assert (H : Some (str "   ") = None
              \/ exists s, Some (str "   ") = Some s /\ blank s).
  { right. exists (str "   "). split; reflexivity. }
  split; [exact H|].
  destruct (mapRowToMessage_unnamed_viewer fromYou _ H) as (_ & Hy & _).
  destruct (mapRowToMessage_unnamed_viewer aliceToBob _ H) as (_ & _ & Ha).
  split; [apply Hy; reflexivity|]. split; [apply Hy; reflexivity|].
  apply Ha. discriminate.
Defined.

(** C5: a message mapped from a persisted row (a row of the table or of
    its change feed, in any state the two writes can lead to) is archived
    exactly when its receivePhoto is not null; so is every message the
    client holds. *)
Theorem archived_iff_receivePhoto (w : World) :
  reachable w ->
  (forall row viewerName,
     In row (table (backend w)) \/ In row (feed (backend w)) ->
     Message.archived (mapRowToMessage row viewerName) = true
     <-> non_null (Message.receivePhoto (mapRowToMessage row viewerName))
         = true)
  /\ (forall m,
        In m (messages (app w)) ->
        Message.archived m = true
        <-> non_null (Message.receivePhoto m) = true).
Proof.
  intros Hw. destruct (reachable_inv w Hw) as (Ht & Hfd & Hm & _).
  rewrite (Forall_forall row_inv) in Ht, Hfd.
  rewrite (Forall_forall msg_inv) in Hm.
  split.
  - intros row viewerName Hin.
    assert (Hr : row_inv row)
      by (destruct Hin as [Hin | Hin];
          [apply Ht | apply Hfd]; apply list_elem_of_In, Hin).
    rewrite (msg_inv_archived _ (mapRowToMessage_inv row viewerName Hr)).
    reflexivity.
  - intros m Hin.
    rewrite (msg_inv_archived m (Hm m (proj2 (list_elem_of_In _ _) Hin))).
    reflexivity.
Qed.

Lemma archived_iff_receivePhoto_witness :
  reachable bobWorld
  /\ (forall m,
        In m (messages (app bobWorld)) ->
        Message.archived m = true
        <-> non_null (Message.receivePhoto m) = true).
Proof.
  split; [exact bobWorld_reachable|].
  exact (proj2 (archived_iff_receivePhoto bobWorld bobWorld_reachable)).
Defined.

(** C3: in every state the core operations lead to (insertMessage,
    unlockMessage with the capture of a verified photo, load and the
    change-feed merge), each row and each held message has a non-null
    receiveAt exactly when it has a non-null receivePhoto. *)
Theorem receiveAt_iff_receivePhoto (w : World) :
  reachable w ->
  (forall row,
     In row (table (backend w)) \/ In row (feed (backend w)) ->
     non_null (DbRow.receive_at row) = true
     <-> non_null (DbRow.receive_photo row) = true)
  /\ (forall m,
        In m (messages (app w)) \/ activeMessage (app w) = Some m ->
        non_null (Message.receiveAt m) = true
        <-> non_null (Message.receivePhoto m) = true).
Proof.
  intros Hw. destruct (reachable_inv w Hw) as (Ht & Hfd & Hm & Ha).
  rewrite (Forall_forall row_inv) in Ht, Hfd.
  rewrite (Forall_forall msg_inv) in Hm.
  split.
  - intros row Hin.
    assert (Hr : row_inv row)
      by (destruct Hin as [Hin | Hin];
          [apply Ht | apply Hfd]; apply list_elem_of_In, Hin).
    rewrite (row_inv_receive_at row Hr). reflexivity.
  - intros m Hin.
    assert (Hi : msg_inv m)
      by (destruct Hin as [Hin | Hin];
          [apply Hm, list_elem_of_In, Hin | apply Ha, Hin]).
    rewrite (msg_inv_receiveAt m Hi). reflexivity.
Qed.

Lemma receiveAt_iff_receivePhoto_witness :
  reachable bobWorld
  /\ (forall m,
        In m (messages (app bobWorld)) \/ activeMessage (app bobWorld) = Some m ->
        non_null (Message.receiveAt m) = true
        <-> non_null (Message.receivePhoto m) = true).
Proof.
  split; [exact bobWorld_reachable|].
  exact (proj2 (receiveAt_iff_receivePhoto bobWorld bobWorld_reachable)).
Defined.

(** C8: when the fetch of the load fails, the message collection (and the
    active message) stay as they were; the only effect is the
    [console.error] entry that reports the error. *)
Theorem load_failure_keeps_messages (db : Backend) (err : SupabaseError)
    (isMounted : bool) (a : App) :
  fetchMessagesForUser db (trim (userData_name a)) (Some err) = inl err
  /\ messages (load db (Some err) isMounted a) = messages a
  /\ activeMessage (load db (Some err) isMounted a) = activeMessage a
  /\ load db (Some err) isMounted a
     = match trim (userData_name a) with
       | [] => a
       | _ => log (console_error (str "fetchMessagesForUser") err) a
       end.
Proof.
  unfold load, fetchMessagesForUser.
  destruct (trim (userData_name a)); repeat split.
Qed.

Lemma body_of_cases text :
  body_of text
  = (if forallb isWhiteSpace text
     then str "A message carried by moonlight."
     else trim text).
Proof.
  unfold body_of. destruct (forallb isWhiteSpace text) eqn:Hw.
  - rewrite (trim_all_white _ Hw). reflexivity.
  - destruct (trim text) eqn:Ht; [|reflexivity].
    apply trim_nil_inv in Ht. congruence.
Qed.

(** C9: a send with a user name, a recipient name and no error from the
    server inserts one row, from the trimmed user name to the trimmed
    recipient name, whose body is the trimmed text, or the default "A
    message carried by moonlight." when the text is empty or only white
    space; that body is never empty, and the message put in front of the
    store has it.  Without one of the names, or with an error from the
    server, nothing is inserted and the store is left as it is; so every
    send either inserts nothing or inserts a row with that body. *)
Theorem handleSendMessage_body (db : Backend) (newId created : Z)
    (fault : option SupabaseError) (a : App) :
  let res := handleSendMessage db newId created fault a in
  let body :=
    if forallb isWhiteSpace (messageText a)
    then str "A message carried by moonlight."
    else trim (messageText a) in
  body <> []
  /\ (forall n,
        ~ blank (userData_name a) -> recipient a = Some n -> ~ blank n ->
        fault = None ->
        exists row,
          table (fst res) = table db ++ [row]
          /\ DbRow.id row = newId
          /\ DbRow.sender row = trim (userData_name a)
          /\ DbRow.recipient row = trim n
          /\ DbRow.body row = body
          /\ messages (snd res)
             = mapRowToMessage row (Some (trim (userData_name a)))
               :: messages a
          /\ Message.body (mapRowToMessage row (Some (trim (userData_name a))))
             = body)
  /\ (blank (userData_name a) \/ recipient a = None
      \/ (exists n, recipient a = Some n /\ blank n) \/ fault <> None ->
      fst res = db /\ messages (snd res) = messages a)
  /\ ((fst res = db /\ messages (snd res) = messages a)
      \/ (exists row,
            table (fst res) = table db ++ [row]
            /\ DbRow.body row = body
            /\ DbRow.body row <> []
            /\ messages (snd res)
               = mapRowToMessage row (Some (trim (userData_name a)))
                 :: messages a
            /\ Message.body
                 (mapRowToMessage row (Some (trim (userData_name a))))
               = DbRow.body row)).
Proof.
  cbv zeta. rewrite <- (body_of_cases (messageText a)).
  split; [apply body_of_nonempty|]. split; [|split].
  - intros n Hn Hr Hb ->. unfold handleSendMessage.
    apply trim_not_blank in Hn, Hb.
    destruct (trim (userData_name a)) as [|c s]; [contradiction|].
    rewrite Hr. destruct (trim n) as [|d t]; [contradiction|].
    cbn [insertMessage fst snd table messages setRoute setActiveMessage
         setMessages].
    eexists. split; [reflexivity|]. repeat split.
  - intros H. unfold handleSendMessage.
    destruct (trim (userData_name a)) as [|c s] eqn:Hs; [split; reflexivity|].
    destruct (recipient a) as [name|] eqn:Hr; [|split; reflexivity].
    destruct (trim name) as [|d t] eqn:Ht; [split; reflexivity|].
    destruct fault as [e|]; [split; reflexivity|]. exfalso.
    destruct H as [H | [H | [(n & [= <-] & H) | H]]].
    + apply trim_all_white in H. congruence.
    + discriminate.
    + apply trim_all_white in H. congruence.
    + contradiction.
  - destruct (handleSendMessage_cases db newId created fault a)
      as [(Hdb & Hms & _) | (s & rn & row & -> & _ & Hins & Hms & _)];
      cbv zeta in *; [left; auto|].
    right. exists row.
    destruct (insertMessage_cases db (trim (userData_name a)) rn
                (body_of (messageText a)) (sendPhoto a) newId created fault)
      as [[_ [e He]] | (row' & Hres & Hbody & _)]; cbv zeta in *.
    + rewrite Hins in He. discriminate.
    + rewrite Hins in Hres. injection Hres as Hdb <-.
      rewrite Hdb. cbn [table]. repeat split; auto.
      rewrite Hbody. apply body_of_nonempty.
Qed.

Lemma handleSendMessage_body_witness :
  (~ blank (userData_name bobComposing)
   /\ recipient bobComposing = Some (str "Alice")
   /\ ~ blank (str "Alice")
   /\ exists row,
        table (fst (handleSendMessage lockedBackend 7 7000 None bobComposing))
        = table lockedBackend ++ [row]
        /\ DbRow.body row = str "hi")
  /\ (~ blank (userData_name bobComposingBlank)
      /\ recipient bobComposingBlank = Some (str " Alice ")
      /\ ~ blank (str " Alice ")
      /\ exists row,
           table (fst (handleSendMessage lockedBackend 7 7000 None
                         bobComposingBlank))
           = table lockedBackend ++ [row]
           /\ DbRow.recipient row = str "Alice"
           /\ DbRow.body row = str "A message carried by moonlight.").
Proof.
  assert (H1 : ~ blank (str "Bob")) by (apply not_blank_cons; reflexivity).
  assert (H2 : ~ blank (str "Alice")) by (apply not_blank_cons; reflexivity).
  assert (H3 : ~ blank (str " Alice ")).
  { intros H. apply trim_all_white in H. vm_compute in H. discriminate. }
  split.
  - split; [exact H1|]. split; [reflexivity|]. split; [exact H2|].
    destruct (handleSendMessage_body lockedBackend 7 7000 None bobComposing)
      as (_ & H & _).
    destruct (H (str "Alice") H1 eq_refl H2 eq_refl)
      as (row & Ht & _ & _ & _ & Hb & _).
    exists row. split; [exact Ht | exact Hb].
  - split; [exact H1|]. split; [reflexivity|]. split; [exact H3|].
    destruct (handleSendMessage_body lockedBackend 7 7000 None
                bobComposingBlank) as (_ & H & _).
    destruct (H (str " Alice ") H1 eq_refl H3 eq_refl)
      as (row & Ht & _ & _ & Hr & Hb & _).
    exists row. split; [exact Ht|]. split; [exact Hr | exact Hb].
Defined.

(** C6: the change-feed merge is idempotent.  For every collection,
    viewer and event, handling the same event a second time leaves the
    collection as the first handling made it, so the sorted read is the
    same as well; this holds for the handler and for the component state.
    For a row sent by or to the viewer the handling is the merge: the
    projected message replaces, in place, the first held message of the
    same id, and is put in front when there is none. *)
Theorem subscribe_merge_idempotent (viewerName : JsString)
    (payload_new : option DbRow.t) (prev : list Message.t) (a : App) :
  let once := on_postgres_changes viewerName payload_new prev in
  let twice := on_postgres_changes viewerName payload_new once in
  twice = once
  /\ sortedMessages twice = sortedMessages once
  /\ channel_event payload_new (channel_event payload_new a)
     = channel_event payload_new a
  /\ (forall row,
        payload_new = Some row ->
        DbRow.sender row = viewerName \/ DbRow.recipient row = viewerName ->
        let mapped := mapRowToMessage row (Some viewerName) in
        once = merge mapped prev
        /\ (Forall (fun m => Message.id m <> DbRow.id row) prev ->
            once = mapped :: prev)
        /\ (forall before m after,
              prev = before ++ m :: after ->
              Forall (fun m => Message.id m <> DbRow.id row) before ->
              Message.id m = DbRow.id row ->
              once = before ++ mapped :: after)).
Proof.
  cbv zeta. rewrite on_postgres_changes_idempotent.
  split; [reflexivity|]. split; [reflexivity|]. split.
  - unfold channel_event.
    destruct (trim (userData_name a)) as [|c v] eqn:Hn; [rewrite Hn; reflexivity|].
    cbn [userData_name setMessages]. rewrite Hn.
    unfold setMessages. cbn. rewrite on_postgres_changes_idempotent. reflexivity.
  - intros row -> Hmatch.
    assert (Hon : on_postgres_changes viewerName (Some row) prev
                  = merge (mapRowToMessage row (Some viewerName)) prev).
    { unfold on_postgres_changes.
      destruct Hmatch as [Hs | Hr].
      - rewrite (bool_decide_eq_false_2 (DbRow.sender row <> viewerName)) by auto.
        reflexivity.
      - rewrite (bool_decide_eq_false_2 (DbRow.recipient row <> viewerName)) by auto.
        rewrite andb_false_r. reflexivity. }
    rewrite Hon. split; [reflexivity|]. split.
    + exact (merge_absent (mapRowToMessage row (Some viewerName)) prev).
    + intros before m after -> Hb Hm.
      exact (merge_present (mapRowToMessage row (Some viewerName))
               before m after Hb Hm).
Qed.

Lemma subscribe_merge_idempotent_witness :
  (DbRow.sender aliceToBob = str "Bob" \/ DbRow.recipient aliceToBob = str "Bob")
  /\ on_postgres_changes (str "Bob") (Some aliceToBob) []
     = [mapRowToMessage aliceToBob (Some (str "Bob"))].
Proof.
  assert (Hm : DbRow.sender aliceToBob = str "Bob"
               \/ DbRow.recipient aliceToBob = str "Bob") by (right; reflexivity).
  split; [exact Hm|].
  destruct (subscribe_merge_idempotent (str "Bob") (Some aliceToBob) []
              initialApp) as (_ & _ & _ & H).
  destruct (H aliceToBob eq_refl Hm) as (_ & Habsent & _).
  apply Habsent. constructor.
Defined.

(** ** The sorted read *)

Lemma newer_first_sentAt l :
  StronglySorted newer_first l ->
  StronglySorted (fun x y : Z => y <= x) (map Message.sentAt l).
Proof.
  induction 1 as [|m l Hl IH Hm]; cbn [map]; constructor; [exact IH|].
  apply Forall_map. exact Hm.
Qed.

Lemma sorted_desc_unique (l1 l2 : list Z) :
  StronglySorted (fun x y : Z => y <= x) l1 ->
  StronglySorted (fun x y : Z => y <= x) l2 ->
  Permutation l1 l2 -> l1 = l2.
Proof.
  intros H1. revert l2.
  induction H1 as [|x l1 Hs1 IH Hx]; intros l2 H2 Hp.
  - apply Permutation_nil in Hp. auto.
  - destruct H2 as [|y l2 Hs2 Hy].
    + symmetry in Hp. apply Permutation_nil in Hp. discriminate.
    + assert (Hxy : x = y).
      { rewrite (Forall_forall (fun z => z <= x)) in Hx.
        rewrite (Forall_forall (fun z => z <= y)) in Hy.
        assert (Hx2 : x ∈ y :: l2) by (rewrite <- Hp; left).
        assert (Hy1 : y ∈ x :: l1) by (rewrite Hp; left).
        apply elem_of_cons in Hx2 as [? | Hx2]; [assumption|].
        apply elem_of_cons in Hy1 as [? | Hy1]; [auto|].
        specialize (Hx _ Hy1). specialize (Hy _ Hx2). lia. }
      subst y. f_equal. apply IH; [exact Hs2|].
      eapply Permutation_cons_inv, Hp.
Qed.

Lemma sortedMessages_order_independent l1 l2 :
  Permutation l1 l2 ->
  map Message.sentAt (sortedMessages l1) = map Message.sentAt (sortedMessages l2).
Proof.
  intros Hp. apply sorted_desc_unique.
  - apply newer_first_sentAt, sortedMessages_newer_first.
  - apply newer_first_sentAt, sortedMessages_newer_first.
  - apply Permutation_map. unfold sortedMessages.
    rewrite !Array_sort_perm. exact Hp.
Qed.

Lemma useMemo_value cell version messages :
  (forall c, cell = Some c -> memo_version c = version ->
             memo_value c = sortedMessages messages) ->
  let c' := useMemo_sortedMessages cell version messages in
  memo_version c' = version /\ memo_value c' = sortedMessages messages.
Proof.
  intros H. unfold useMemo_sortedMessages.
  destruct cell as [c|]; [|split; reflexivity].
  case_bool_decide as Hv; [|split; reflexivity].
  split; [exact Hv | apply H; auto].
Qed.

Lemma memo_inv_run r op : memo_inv r -> memo_inv (run_op r op).
Proof.
  intros Hr. destruct op as [f|]; intros c; cbn.
  - intros Hc. destruct (Hr c Hc) as [Hle _]. split; [lia|]. intros; lia.
  - intros [= <-].
    destruct (useMemo_value (memo_cell r) (store_version r) (store_messages r))
      as [Hv Hval].
    { intros c Hc. apply (Hr c Hc). }
    cbv zeta in *. rewrite Hv. auto.
Qed.

Lemma memo_inv_ops ops : memo_inv (fold_left run_op ops mounted).
Proof.
  assert (H : forall r, memo_inv r -> memo_inv (fold_left run_op ops r)).
  { induction ops as [|op ops IH]; intros r Hr; [exact Hr|].
    cbn [fold_left]. apply IH, memo_inv_run, Hr. }
  apply H. intros c. discriminate.
Qed.

(** C7: the sorted read holds exactly the held messages, most recent
    sentAt first (messages of one sentAt in the order they are held);
    the sentAt sequence read does not depend on the order in which the
    collection was populated; and whatever updates and renders came
    before, a render reads the sort of the collection as it is then:
    the memo never serves the sort of an earlier collection. *)
Theorem sortedMessages_sorted_at_read (messages : list Message.t) :
  Permutation (sortedMessages messages) messages
  /\ StronglySorted newer_first (sortedMessages messages)
  /\ (forall t,
        List.filter (fun m => Message.sentAt m =? t) (sortedMessages messages)
        = List.filter (fun m => Message.sentAt m =? t) messages)
  /\ (forall arrival,
        Permutation arrival messages ->
        map Message.sentAt (sortedMessages arrival)
        = map Message.sentAt (sortedMessages messages))
  /\ (forall ops,
        let r := fold_left run_op ops mounted in
        visible r = sortedMessages (store_messages r)).
Proof.
  split; [apply Array_sort_perm|].
  split; [apply sortedMessages_newer_first|].
  split; [intros t; apply sortedMessages_stable|].
  split; [intros arrival; apply sortedMessages_order_independent|].
  intros ops r. unfold visible.
  apply useMemo_value. intros c Hc. apply (memo_inv_ops ops c Hc).
Qed.

Lemma sortedMessages_sorted_at_read_witness :
  Permutation (rev heldByBob) heldByBob
  /\ map Message.sentAt (sortedMessages (rev heldByBob))
     = map Message.sentAt (sortedMessages heldByBob).
Proof.
  assert (Hp : Permutation (rev heldByBob) heldByBob)
    by (symmetry; apply Permutation_rev).
  split; [exact Hp|].
  destruct (sortedMessages_sorted_at_read heldByBob) as (_ & _ & _ & H & _).
  exact (H (rev heldByBob) Hp).
Defined.

(** ** The threshold gate *)

Lemma moonProb_first before p after :
  Forall (fun q => isMoon q = false) before -> isMoon p = true ->
  moonProb (before ++ p :: after) = probability p.
Proof.
  intros Hb Hp. unfold moonProb, moonPred.
  induction Hb as [|q before Hq _ IH]; simpl.
  - rewrite Hp. reflexivity.
  - rewrite Hq. exact IH.
Qed.

Lemma moonProb_absent predictions :
  Forall (fun q => isMoon q = false) predictions ->
  moonProb predictions = 0%float.
Proof.
  intros H. unfold moonProb, moonPred.
  induction H as [|q l Hq _ IH]; simpl; [reflexivity|].
  rewrite Hq. exact IH.
Qed.

Lemma percent_percentage_of prob : percentage_of prob (percent prob).
Proof.
  unfold percentage_of, percent, Math_round.
  destruct (Prim2SF (PrimFloat.mul prob 100)) as [s| s | |s m e];
    try reflexivity.
  cbv zeta. eexists. split; [reflexivity|]. unfold nearest_integer.
  set (n := if s then Z.neg m else Z.pos m).
  destruct (Z.leb_spec 0 e) as [He|He].
  - rewrite (Z.max_r 0 e), (Z.max_l 0 (- e)) by lia. rewrite Z.pow_0_r. lia.
  - rewrite (Z.max_l 0 e), (Z.max_r 0 (- e)) by lia.
    rewrite Z.pow_0_r, Z.mul_1_r.
    replace (- e + 1) with (Z.succ (- e)) by lia.
    rewrite Z.pow_succ_r by lia.
    assert (Hd : 0 < 2 ^ (- e)) by (apply Z.pow_pos_nonneg; lia).
    set (d := 2 ^ (- e)) in *.
    pose proof (Z.div_mod (2 * n + d) (2 * d) ltac:(lia)) as Hdm.
    pose proof (Z.mod_pos_bound (2 * n + d) (2 * d) ltac:(lia)) as Hb.
    nia.
Qed.

Lemma percentage_of_unique prob r r' :
  percentage_of prob r -> percentage_of prob r' -> r' = r.
Proof.
  unfold percentage_of.
  destruct (Prim2SF (PrimFloat.mul prob 100)) as [s| s | |s m e];
    try congruence.
  cbv zeta. intros (z & -> & Hz) (z' & -> & Hz'). f_equal.
  unfold nearest_integer in *.
  assert (Hd : 0 < 2 ^ Z.max 0 (- e)) by (apply Z.pow_pos_nonneg; lia).
  nia.
Qed.

(** C2: [verifyMoon] takes the probability of the first prediction whose
    label is "moon" up to ASCII case (0 when there is none); it calls
    [onVerifiedMoon] with a capture whose confidence is that probability
    exactly when the probability is >= 0.75, and otherwise reports "Not
    enough moon" with the percentage of that probability: the one number
    that is the product of the probability and 100 brought to the
    nearest integer, the upper one at a tie.  "Moon" at 0.80 is verified,
    "moon" at 0.74 is rejected at 74%, and 0.75 itself is verified; 0.5
    is rejected at 50%, 0.745 and 0.7499 at 75%, and a capture with no
    moon label at 0%. *)
Theorem verifyMoon_threshold (predictions : list Prediction)
    (now : JsString) (st : CaptureState) :
  let prob := moonProb predictions in
  let verified p :=
    Verified {| dataUrl := capturedDataUrl st; confidence := p;
                verifiedAt := now |} in
  let run ps := pipeline_state (verifyMoon true true (inr ps) now st) in
  (forall p, isMoon p = true <-> toLowerCase (className p) = str "moon")
  /\ (forall before p after,
        predictions = before ++ p :: after ->
        Forall (fun q => isMoon q = false) before -> isMoon p = true ->
        prob = probability p)
  /\ (Forall (fun q => isMoon q = false) predictions -> prob = 0%float)
  /\ (exists r,
        percentage_of prob r
        /\ (forall r', percentage_of prob r' -> r' = r)
        /\ run predictions
           = (if PrimFloat.leb 0.75 prob then verified prob
              else Rejected (NotEnoughMoon r)))
  /\ run [ {| className := str "Moon"; probability := 0.80 |} ]
     = verified 0.80%float
  /\ run [ {| className := str "moon"; probability := 0.74 |} ]
     = Rejected (NotEnoughMoon (RInt 74))
  /\ run [ {| className := str "MOON"; probability := 0.75 |} ]
     = verified 0.75%float
  /\ run [ {| className := str "Moon"; probability := 0.5 |} ]
     = Rejected (NotEnoughMoon (RInt 50))
  /\ run [ {| className := str "Moon"; probability := 0.745 |} ]
     = Rejected (NotEnoughMoon (RInt 75))
  /\ run [ {| className := str "Moon"; probability := 0.7499 |} ]
     = Rejected (NotEnoughMoon (RInt 75))
  /\ run [ {| className := str "Sky"; probability := 0.9 |} ]
     = Rejected (NotEnoughMoon (RInt 0)).
Proof.
  cbv zeta. split; [|split; [|split; [|split]]].
  - intros p. unfold isMoon. rewrite bool_decide_eq_true. reflexivity.
  - intros before p after -> Hb Hp. apply moonProb_first; assumption.
  - apply moonProb_absent.
  - exists (percent (moonProb predictions)).
    split; [apply percent_percentage_of|].
    split; [intros r' Hr'; exact (percentage_of_unique _ _ _
                                    (percent_percentage_of _) Hr')|].
    unfold verifyMoon. cbn [negb].
    change MOON_THRESHOLD with 0.75%float.
    destruct (PrimFloat.leb 0.75 (moonProb predictions)); reflexivity.
  - repeat split; vm_compute; reflexivity.
Qed.

Lemma verifyMoon_threshold_witness :
  skyThenMoon
  = [ {| className := str "Sky"; probability := 0.26 |} ]
    ++ {| className := str "moon"; probability := 0.74 |} :: []
  /\ Forall (fun q => isMoon q = false)
       [ {| className := str "Sky"; probability := 0.26 |} ]
  /\ isMoon {| className := str "moon"; probability := 0.74 |} = true
  /\ moonProb skyThenMoon = 0.74%float.
Proof.
  assert (Hb : Forall (fun q => isMoon q = false)
                 [ {| className := str "Sky"; probability := 0.26 |} ])
    by (constructor; [reflexivity | constructor]).
  split; [reflexivity|]. split; [exact Hb|]. split; [reflexivity|].
  destruct (verifyMoon_threshold skyThenMoon []
              {| capturedDataUrl := None; verifying := false;
                 resultText := NoText |}) as (_ & H & _).
  exact (H [ {| className := str "Sky"; probability := 0.26 |} ]
           {| className := str "moon"; probability := 0.74 |} []
           eq_refl Hb eq_refl).
Defined.

(** ** Unlocking *)

(** C1, as the code has it.  A locked message can be unlocked
    ([handleOpenMessage] opens the unlock capture for it); after an
    [unlockMessage] that succeeded with a capture, the message mapped from
    the returned row can no longer be unlocked from the client
    ([handleOpenMessage] leaves the route alone).  [unlockMessage] itself
    has no such guard: called again for the same id it succeeds again and
    overwrites receive_photo and receive_at. *)
Theorem unlock_gate_without_server_guard (db db' : Backend) (id : Z)
    (capture : CaptureRecord) (now : JsString)
    (fault : option SupabaseError) (row : DbRow.t) :
  unlockMessage db id (JsObject capture) now fault = (db', inr row) ->
  (forall m a,
     Message.locked m = true ->
     canUnlock m = true
     /\ route (handleOpenMessage (Some m) a) = unlockCapture)
  /\ (forall viewerName a,
        canUnlock (mapRowToMessage row viewerName) = false
        /\ route (handleOpenMessage (Some (mapRowToMessage row viewerName)) a)
           = route a)
  /\ (forall receivePhoto' now',
        exists db'' row',
          unlockMessage db' id receivePhoto' now' None = (db'', inr row')
          /\ DbRow.receive_photo row' = nullish_or receivePhoto' JsNull
          /\ DbRow.receive_at row' = JsStr now'
          /\ DbRow.locked row' = JsBool false).
Proof.
  intros H. split; [|split].
  - intros m a Hl.
    assert (Hc : canUnlock m = true) by (unfold canUnlock; rewrite Hl; reflexivity).
    split; [exact Hc|]. unfold handleOpenMessage. rewrite Hc. reflexivity.
  - intros viewerName a.
    assert (Hrow : row = unlock_update (JsObject capture) now row
                   \/ exists r, row = unlock_update (JsObject capture) now r).
    { destruct (unlockMessage_cases db id (JsObject capture) now fault)
        as [[_ [e He]] | (r & _ & _ & Hres)]; rewrite H in *;
        [discriminate | right; exists r; congruence]. }
    assert (Hc : canUnlock (mapRowToMessage row viewerName) = false)
      by (destruct Hrow as [-> | [r ->]]; reflexivity).
    split; [exact Hc|]. unfold handleOpenMessage. rewrite Hc. reflexivity.
  - intros photo' now'.
    destruct (unlockMessage_again db id (JsObject capture) now fault db' row
                photo' now' H) as [db'' Hagain].
    exists db'', (unlock_update photo' now' row). repeat split. exact Hagain.
Qed.

Lemma unlock_gate_without_server_guard_witness :
  unlockMessage lockedBackend 1 (JsObject bobCapture)
    (str "2024-01-02T20:00:01.000Z") None
  = (unlockedBackend,
     inr (unlock_update (JsObject bobCapture)
            (str "2024-01-02T20:00:01.000Z") aliceToBob))
  /\ canUnlock
       (mapRowToMessage
          (unlock_update (JsObject bobCapture)
             (str "2024-01-02T20:00:01.000Z") aliceToBob)
          (Some (str "Bob"))) = false.
Proof.
  assert (H : unlockMessage lockedBackend 1 (JsObject bobCapture)
                (str "2024-01-02T20:00:01.000Z") None
              = (unlockedBackend,
                 inr (unlock_update (JsObject bobCapture)
                        (str "2024-01-02T20:00:01.000Z") aliceToBob)))
    by reflexivity.
  split; [exact H|].
  destruct (unlock_gate_without_server_guard _ _ _ _ _ _ _ H) as (_ & Hc & _).
  exact (proj1 (Hc (Some (str "Bob")) initialApp)).
Defined.

(** C1 does not hold as stated.  Bob's letter has been unlocked
    (from another of his clients); this client still holds it as locked
    and has opened the unlock capture.  The second [unlockMessage] is not
    an error: it returns the row with the new capture and the new time,
    and the client goes on to the printing route. *)
Lemma second_unlock_not_rejected :
  let first := unlock_update (JsObject bobCapture)
                 (str "2024-01-02T20:00:01.000Z") aliceToBob in
  let second :=
    unlockMessage (backend staleBobWorld) 1 (JsObject secondCapture)
      (str "2024-01-03T21:00:01.000Z") None in
  let res :=
    unlockVerified (backend staleBobWorld) secondCapture
      (str "2024-01-03T21:00:01.000Z") None (app staleBobWorld) in
  reachable staleBobWorld
  /\ unlockMessage lockedBackend 1 (JsObject bobCapture)
       (str "2024-01-02T20:00:01.000Z") None
     = (backend staleBobWorld, inr first)
  /\ canUnlock (mapRowToMessage first (Some (str "Bob"))) = false
  /\ route (app staleBobWorld) = unlockCapture
  /\ snd second
     = inr (unlock_update (JsObject secondCapture)
              (str "2024-01-03T21:00:01.000Z") first)
  /\ ~ (exists error, snd second = inl error)
  /\ fst res = fst second
  /\ route (snd res) = printing.
Proof.
  cbv zeta. split; [|repeat split; intros [error He]; discriminate].
  assert (H1 : reachable {| backend := lockedBackend; app := initialApp |}).
  { exact (reachable_step _ _ reachable_init
             (step_peer_insert initialWorld (str "Alice") (str "Bob")
                (str "hello") JsNull 1 1000 None (or_introl eq_refl))). }
  assert (H2 : reachable {| backend := lockedBackend; app := bobApp |}).
  { exact (reachable_step _ _ H1
             (step_input {| backend := lockedBackend; app := initialApp |}
                bobApp eq_refl eq_refl (or_introl eq_refl))). }
  assert (H3 : reachable {| backend := lockedBackend;
                            app := load lockedBackend None true bobApp |}).
  { exact (reachable_step _ _ H2
             (step_load {| backend := lockedBackend; app := bobApp |}
                None true)). }
  assert (H4 : reachable {| backend := unlockedBackend;
                            app := load lockedBackend None true bobApp |}).
  { exact (reachable_step _ _ H3
             (step_peer_unlock
                {| backend := lockedBackend;
                   app := load lockedBackend None true bobApp |}
                1 bobCapture (str "2024-01-02T20:00:01.000Z") None)). }
  exact (reachable_step _ _ H4
           (step_open
              {| backend := unlockedBackend;
                 app := load lockedBackend None true bobApp |}
              (mapRowToMessage aliceToBob (Some (str "Bob")))
              (or_introl eq_refl))).
Qed.

(** * Further properties of the file *)

(** ** [pgQuote] *)

Lemma escape_quotes_cons c s :
  escape_quotes (c :: s)
  = (if (c =? 34)%N then [92; 34]%N else [c]) ++ escape_quotes s.
Proof. reflexivity. Qed.

Lemma escape_quotes_app a b :
  escape_quotes (a ++ b) = escape_quotes a ++ escape_quotes b.
Proof. apply flat_map_app. Qed.

(** An escaped text never starts with a quote. *)
Lemma escape_quotes_head s rest : escape_quotes s <> (34 :: rest)%N.
Proof.
  destruct s as [|c s]; [discriminate|].
  rewrite escape_quotes_cons.
  destruct (N.eqb_spec c 34) as [->|Hc]; cbn; [discriminate|congruence].
Qed.

Lemma escape_quotes_injective a b :
  escape_quotes a = escape_quotes b -> a = b.
Proof.
  revert b. induction a as [|x a IH]; intros [|y b] H.
  - reflexivity.
  - rewrite escape_quotes_cons in H. destruct (y =? 34)%N; discriminate.
  - rewrite escape_quotes_cons in H. destruct (x =? 34)%N; discriminate.
  - rewrite !escape_quotes_cons in H.
    destruct (N.eqb_spec x 34) as [->|Hx], (N.eqb_spec y 34) as [->|Hy];
      cbn in H.
    + injection H as H. f_equal. apply IH, H.
    + injection H as Hy' H. symmetry in H.
      exfalso. exact (escape_quotes_head _ _ H).
    + injection H as Hx' H.
      exfalso. exact (escape_quotes_head _ _ H).
    + injection H as -> H. f_equal. apply IH, H.
Qed.

(** In an escaped text every quote has a backslash right before it. *)
Lemma escape_quotes_guarded s pre post :
  escape_quotes s = (pre ++ 34 :: post)%N ->
  exists pre', pre = (pre' ++ [92])%N.
Proof.
  revert pre. induction s as [|c s IH]; intros pre H.
  - destruct pre; discriminate.
  - rewrite escape_quotes_cons in H.
    destruct (N.eqb_spec c 34) as [->|Hc]; cbn in H.
    + destruct pre as [|p [|q pre]]; cbn in H.
      * discriminate.
      * injection H as Hp _. subst p. exists []. reflexivity.
      * injection H as Hp Hq H. subst p q.
        destruct (IH pre H) as [pre' ->]. exists (92 :: 34 :: pre')%N.
        reflexivity.
    + destruct pre as [|p pre]; cbn in H.
      * injection H as Hp _. congruence.
      * injection H as Hp H. subst p.
        destruct (IH pre H) as [pre' ->]. exists (c :: pre'). reflexivity.
Qed.

(** X1: [pgQuote] loses nothing: two string values that are quoted to
    the same text are the same value. *)
Theorem pgQuote_injective (a b : JsString) :
  pgQuote (Some a) = pgQuote (Some b) -> a = b.
Proof.
  unfold pgQuote. intros H. injection H as H.
  apply app_inv_tail in H. apply escape_quotes_injective, H.
Qed.

Lemma pgQuote_injective_witness :
  pgQuote (Some (str "Bob")) = pgQuote (Some (str "Bob"))
  /\ str "Bob" = str "Bob".
Proof.
  split; [reflexivity|].
  exact (pgQuote_injective (str "Bob") (str "Bob") eq_refl).
Defined.

(** X2: the text [pgQuote] returns starts and ends with a quote, and
    every quote between the two has a backslash right before it; a value
    without quotes is passed on as it is, and a missing value is quoted
    as the empty string. *)
Theorem pgQuote_shape (value : option JsString) :
  (exists body, pgQuote value = (34 :: body ++ [34])%N
      /\ forall pre post, body = (pre ++ 34 :: post)%N ->
                          exists pre', pre = (pre' ++ [92])%N)
  /\ (forall v, value = Some v -> Forall (fun c => c <> 34%N) v ->
                pgQuote value = (34 :: v ++ [34])%N)
  /\ (value = None -> pgQuote value = [34; 34]%N).
Proof.
  split; [|split].
  - eexists. split; [reflexivity|]. apply escape_quotes_guarded.
  - intros v -> Hv. unfold pgQuote. do 2 f_equal.
    induction Hv as [|c v Hc _ IH]; [reflexivity|].
    rewrite escape_quotes_cons, IH.
    destruct (N.eqb_spec c 34); [contradiction | reflexivity].
  - intros ->. reflexivity.
Qed.

Lemma pgQuote_shape_witness :
  Forall (fun c => c <> 34%N) (str "Luna Chen")
  /\ pgQuote (Some (str "Luna Chen")) = (34 :: str "Luna Chen" ++ [34])%N.
Proof.
  assert (H : Forall (fun c => c <> 34%N) (str "Luna Chen"))
    by (repeat constructor; discriminate).
  split; [exact H|].
  destruct (pgQuote_shape (Some (str "Luna Chen"))) as (_ & Hq & _).
  exact (Hq _ eq_refl H).
Defined.

(** ** [getLocationOffsetHours] *)

Lemma trimStart_Forall (P : N -> Prop) s :
  Forall P s -> Forall P (trimStart s).
Proof.
  induction 1 as [|c s Hc Hs IH]; cbn; [constructor|].
  destruct (isWhiteSpace c); [exact IH | constructor; assumption].
Qed.

Lemma trimStart_blank_app ws c rest :
  blank ws -> isWhiteSpace c = false ->
  trimStart (ws ++ c :: rest) = c :: rest.
Proof.
  unfold blank. induction ws as [|w ws IH]; cbn; intros Hws Hc.
  - rewrite Hc. reflexivity.
  - apply andb_prop in Hws as [Hw Hws]. rewrite Hw. auto.
Qed.

Lemma isSign_not_white c : isSign c = true -> isWhiteSpace c = false.
Proof.
  unfold isSign. intros H. apply orb_prop in H as [H | H];
    apply N.eqb_eq in H; subst c; reflexivity.
Qed.

Lemma match_here_needs_sign s :
  Forall (fun c => isSign c = false) s -> match_here s = None.
Proof.
  intros H. destruct s as [|a [|b [|c rest]]]; try reflexivity.
  cbn [match_here]. destruct (isZoneWord a b c); [|reflexivity].
  assert (Hr : Forall (fun c => isSign c = false) (trimStart rest)).
  { apply trimStart_Forall.
    apply Forall_cons in H as [_ H]. apply Forall_cons in H as [_ H].
    apply Forall_cons in H as [_ H]. exact H. }
  destruct (trimStart rest) as [|sign [|d1 rest']]; try reflexivity.
  apply Forall_cons in Hr as [Hs _]. rewrite Hs. reflexivity.
Qed.

Lemma location_match_needs_sign s :
  Forall (fun c => isSign c = false) s -> location_match s = None.
Proof.
  induction 1 as [|c s Hc Hs IH].
  - reflexivity.
  - cbn [location_match].
    rewrite (match_here_needs_sign (c :: s)) by (constructor; assumption).
    exact IH.
Qed.

(** X3: the offset [getLocationOffsetHours] returns is always between -12
    and 14; it is 0 for a location without a sign character, as for the
    omitted argument; for a location that starts with UTC or GMT (in any
    case), optional white space, a sign and a digit, it is the signed
    number of the one or two digits that follow the sign, clamped to
    that range. *)
Theorem getLocationOffsetHours_range (location : option JsString) :
  (-12 <= getLocationOffsetHours location <= 14)
  /\ (getLocationOffsetHours None = 0)
  /\ (forall l, location = Some l ->
                Forall (fun c => isSign c = false) l ->
                getLocationOffsetHours location = 0)
  /\ (forall a b c ws sign d1 rest,
        location = Some (a :: b :: c :: ws ++ sign :: d1 :: rest) ->
        isZoneWord a b c = true -> blank ws ->
        isSign sign = true -> isDigit d1 = true ->
        let digits :=
          match rest with
          | d2 :: _ =>
              if isDigit d2 then 10 * digit_value d1 + digit_value d2
              else digit_value d1
          | [] => digit_value d1
          end in
        getLocationOffsetHours location
        = Z.max (-12)
            (Z.min 14 ((if (sign =? 45)%N then -1 else 1) * digits))).
Proof.
  split; [|split; [|split]].
  - unfold getLocationOffsetHours. destruct (location_match _); lia.
  - reflexivity.
  - intros l -> Hl. unfold getLocationOffsetHours.
    rewrite (location_match_needs_sign l Hl). reflexivity.
  - intros a b c ws sign d1 rest -> Hz Hws Hs Hd. cbv zeta.
    unfold getLocationOffsetHours. cbn [location_match match_here].
    rewrite Hz, (trimStart_blank_app ws sign (d1 :: rest) Hws
                   (isSign_not_white sign Hs)), Hs, Hd.
    cbn [andb].
    destruct rest as [|d2 rest]; [reflexivity|].
    destruct (isDigit d2); reflexivity.
Qed.

Lemma getLocationOffsetHours_range_witness :
  isZoneWord 103 109 116 = true /\ blank (str " ")
  /\ isSign 45 = true /\ isDigit 49 = true
  /\ getLocationOffsetHours (Some (str "gmt -13 (ship time)")) = -12.
Proof.
  repeat (split; [reflexivity|]).
  destruct (getLocationOffsetHours_range (Some (str "gmt -13 (ship time)")))
    as (_ & _ & _ & H).
  exact (H 103%N 109%N 116%N (str " ") 45%N 49%N (str "3 (ship time)")
           eq_refl eq_refl eq_refl eq_refl eq_refl).
Defined.

(** ** The inbox and the archive *)

Lemma truthy_nullish_or v : truthy (nullish_or v JsNull) = truthy v.
Proof. destruct v; reflexivity. Qed.

(** For a projected message [archived] and the truth of [receivePhoto]
    are one and the same, whatever the row holds. *)
Lemma projected_archived row viewerName :
  Message.archived (mapRowToMessage row viewerName)
  = truthy (Message.receivePhoto (mapRowToMessage row viewerName)).
Proof. cbn. rewrite truthy_nullish_or. reflexivity. Qed.

Lemma filter_partition {A} (f : A -> bool) (l : list A) :
  Permutation l (List.filter f l ++ List.filter (fun x => negb (f x)) l).
Proof.
  induction l as [|x l IH]; [reflexivity|].
  cbn [List.filter]. destruct (f x); cbn [negb].
  - cbn. apply perm_skip, IH.
  - rewrite <- Permutation_middle. apply perm_skip, IH.
Qed.

Lemma filter_ext_Forall {A} (f g : A -> bool) (l : list A) :
  Forall (fun x => f x = g x) l -> List.filter f l = List.filter g l.
Proof.
  induction 1 as [|x l Hx _ IH]; [reflexivity|].
  cbn [List.filter]. rewrite Hx, IH. reflexivity.
Qed.

Lemma Forall_filter_keep {A} (P : A -> Prop) (f : A -> bool) (l : list A) :
  Forall P l -> Forall P (List.filter f l).
Proof.
  induction 1 as [|x l Hx _ IH]; [constructor|].
  cbn [List.filter]. destruct (f x); [constructor|]; assumption.
Qed.

Lemma pending_projected l :
  Forall (fun m => Message.archived m = truthy (Message.receivePhoto m)) l ->
  pending l = List.filter (fun m => negb (Message.archived m)) (incoming l).
Proof.
  intros H. unfold pending. apply filter_ext_Forall.
  unfold incoming. apply Forall_filter_keep.
  eapply Forall_impl; [exact H|]. intros m Hm. cbn in Hm. rewrite Hm.
  destruct (truthy (Message.receivePhoto m)), (Message.locked m); reflexivity.
Qed.

Lemma projected_list_archived (rows : list (DbRow.t * option JsString)) :
  Forall (fun m => Message.archived m = truthy (Message.receivePhoto m))
    (map (fun p => mapRowToMessage (fst p) (snd p)) rows).
Proof.
  apply Forall_map, Forall_forall. intros p _. apply projected_archived.
Qed.

(** X4: whatever rows and viewer names the held messages were projected
    from, each of them is in exactly one of three lists: the letters
    sent, the letters awaiting the viewer's moon, and the letters
    received and archived; the archive screen lists exactly the archived
    ones, and a sent letter reads "Opened" exactly when it is archived. *)
Theorem inbox_lists_partition (rows : list (DbRow.t * option JsString)) :
  let held := map (fun p => mapRowToMessage (fst p) (snd p)) rows in
  Permutation held
    (sent held ++ pending held
     ++ List.filter (fun m => Message.archived m) (incoming held))
  /\ Permutation (galleryItems held)
       (List.filter (fun m => Message.archived m) held)
  /\ Forall (fun m => sent_status m = str "Opened"
                      <-> Message.archived m = true) held.
Proof.
  cbv zeta. pose proof (projected_list_archived rows) as Hp.
  set (held := map _ rows) in *. split; [|split].
  - rewrite (pending_projected held Hp).
    rewrite (filter_partition
               (fun m => bool_decide (Message.from m = str "You")) held) at 1.
    apply Permutation_app_head. fold (incoming held).
    rewrite (filter_partition (fun m => negb (Message.archived m))
               (incoming held)) at 1.
    apply Permutation_app_head.
    erewrite (filter_ext_Forall (fun x => negb (negb (Message.archived x))));
      [reflexivity|].
    apply Forall_forall. intros m _. apply negb_involutive.
  - unfold galleryItems. rewrite Array_sort_perm.
    erewrite filter_ext_Forall; [reflexivity|].
    eapply Forall_impl; [exact Hp|]. intros m Hm. cbn in *. congruence.
  - eapply Forall_impl; [exact Hp|]. intros m Hm. cbn in Hm.
    unfold sent_status. rewrite Hm.
    destruct (truthy (Message.receivePhoto m)); split; auto; discriminate.
Qed.

(** X5: every letter the inbox lists as awaiting the moon opens the
    unlock capture when it is chosen, and becomes the active message. *)
Theorem pending_opens_capture (held : list Message.t) (m : Message.t)
    (a : App) :
  In m (pending held) ->
  route (handleOpenMessage (Some m) a) = unlockCapture
  /\ activeMessage (handleOpenMessage (Some m) a) = Some m
  /\ messages (handleOpenMessage (Some m) a) = messages a.
Proof.
  unfold pending. intros H. apply filter_In in H as [_ H].
  apply andb_prop in H as [H _].
  unfold handleOpenMessage, canUnlock. rewrite H. repeat split.
Qed.

Lemma pending_opens_capture_witness :
  In (mapRowToMessage aliceToBob (Some (str "Bob"))) (pending heldByBob)
  /\ route (handleOpenMessage
              (Some (mapRowToMessage aliceToBob (Some (str "Bob")))) bobApp)
     = unlockCapture.
Proof.
  assert (H : In (mapRowToMessage aliceToBob (Some (str "Bob")))
                (pending heldByBob)) by (left; reflexivity).
  split; [exact H|].
  exact (proj1 (pending_opens_capture heldByBob _ bobApp H)).
Defined.

(** X6: the inbox tells sent from received by the text "You" alone.  A
    letter whose sender is a user named "You" is therefore listed as
    sent for every viewer, also for its recipient, and is never among
    the letters awaiting the moon. *)
Theorem sender_named_You (row : DbRow.t) (viewerName : option JsString)
    (held : list Message.t) :
  DbRow.sender row = str "You" ->
  In (mapRowToMessage row viewerName) held ->
  In (mapRowToMessage row viewerName) (sent held)
  /\ ~ In (mapRowToMessage row viewerName) (incoming held)
  /\ ~ In (mapRowToMessage row viewerName) (pending held).
Proof.
  intros Hs Hin.
  assert (Hfrom : Message.from (mapRowToMessage row viewerName) = str "You").
  { cbn. case_bool_decide; [reflexivity | exact Hs]. }
  assert (Hinc : ~ In (mapRowToMessage row viewerName) (incoming held)).
  { unfold incoming. intros H. apply filter_In in H as [_ H].
    rewrite bool_decide_eq_true_2 in H by exact Hfrom. discriminate. }
  split; [|split].
  - unfold sent. apply filter_In. split; [exact Hin|].
    apply bool_decide_eq_true_2, Hfrom.
  - exact Hinc.
  - unfold pending. intros H. apply filter_In in H as [H _]. exact (Hinc H).
Qed.

Lemma sender_named_You_witness :
  DbRow.sender fromYou = str "You"
  /\ In (mapRowToMessage fromYou (Some (str "Bob"))) heldByBob
  /\ In (mapRowToMessage fromYou (Some (str "Bob"))) (sent heldByBob)
  /\ DbRow.recipient fromYou = str "Bob".
Proof.
  assert (Hin : In (mapRowToMessage fromYou (Some (str "Bob"))) heldByBob)
    by (right; left; reflexivity).
  split; [reflexivity|]. split; [exact Hin|]. split; [|reflexivity].
  exact (proj1 (sender_named_You fromYou (Some (str "Bob")) heldByBob
                  eq_refl Hin)).
Defined.

Lemma sort_insert_front x l :
  Forall (fun z => Message.sentAt z <= Message.sentAt x) l ->
  sort_insert bySentAtDesc x l = x :: l.
Proof.
  intros H. destruct l as [|y l]; [reflexivity|].
  apply Forall_cons in H as [Hy _]. cbn. unfold bySentAtDesc.
  destruct (Z.ltb_spec 0 (Message.sentAt y - Message.sentAt x)); [lia|].
  reflexivity.
Qed.

Lemma sort_insert_filter (f : Message.t -> bool) x l :
  StronglySorted newer_first l ->
  List.filter f (sort_insert bySentAtDesc x l)
  = if f x then sort_insert bySentAtDesc x (List.filter f l)
    else List.filter f l.
Proof.
  induction 1 as [|y l Hl IH Hy].
  - cbn. destruct (f x); reflexivity.
  - cbn [sort_insert]. unfold bySentAtDesc at 1.
    destruct (Z.ltb_spec 0 (Message.sentAt y - Message.sentAt x)) as [Hlt|Hge].
    + cbn [List.filter]. rewrite IH.
      destruct (f x), (f y); try reflexivity.
      cbn [sort_insert]. unfold bySentAtDesc at 2.
      destruct (Z.ltb_spec 0 (Message.sentAt y - Message.sentAt x)); [|lia].
      reflexivity.
    + cbn [List.filter]. destruct (f x); [|reflexivity].
      symmetry. apply (sort_insert_front x (List.filter f (y :: l))).
      apply Forall_filter_keep. constructor; [lia|].
      eapply Forall_impl; [exact Hy|]. intros z Hz. cbn in *.
      unfold newer_first in Hz. lia.
Qed.

Lemma Array_sort_filter (f : Message.t -> bool) l :
  Array_sort bySentAtDesc (List.filter f l)
  = List.filter f (Array_sort bySentAtDesc l).
Proof.
  induction l as [|x l IH]; [reflexivity|].
  cbn [Array_sort List.filter].
  pose proof (sort_insert_filter f x _ (sortedMessages_newer_first l)) as H.
  unfold sortedMessages in H. rewrite H.
  destruct (f x); cbn [Array_sort]; rewrite IH; reflexivity.
Qed.

(** X7: the archive screen sorts on its own, and still agrees with the
    inbox: its list is the sorted read of the inbox with the letters
    that have no receivePhoto left out, most recent first. *)
Theorem galleryItems_of_sortedMessages (held : list Message.t) :
  galleryItems held
  = List.filter (fun msg => truthy (Message.receivePhoto msg))
      (sortedMessages held)
  /\ StronglySorted newer_first (galleryItems held)
  /\ Forall (fun msg => truthy (Message.receivePhoto msg) = true)
       (galleryItems held).
Proof.
  split; [apply Array_sort_filter|]. split.
  - apply sortedMessages_newer_first.
  - unfold galleryItems. rewrite Array_sort_filter.
    apply Forall_forall. intros m Hm.
    apply list_elem_of_In, filter_In in Hm as [_ Hm]. exact Hm.
Qed.

(** ** Sending and unlocking: guards, failures, effects *)

(** X8: [handleSendMessage] inserts nothing without both names.  With a
    blank user name it alerts and goes to onboarding; with a user name
    but no recipient, or a blank recipient name, it does nothing at all.
    In both cases the table and the held messages stay as they are,
    whatever the server would have answered. *)
Theorem handleSendMessage_guards (db : Backend) (newId created : Z)
    (fault : option SupabaseError) (a : App) :
  (blank (userData_name a) ->
   handleSendMessage db newId created fault a
   = (db, setRoute onboarding (alert (str "Enter your name first.") a)))
  /\ (~ blank (userData_name a) ->
      recipient a = None \/ (exists n, recipient a = Some n /\ blank n) ->
      handleSendMessage db newId created fault a = (db, a)).
Proof.
  unfold handleSendMessage. split.
  - intros H. rewrite (trim_all_white _ H). reflexivity.
  - intros Hn Hr. apply trim_not_blank in Hn.
    destruct (trim (userData_name a)) as [|c s]; [contradiction|].
    destruct Hr as [-> | (n & -> & Hb)]; [reflexivity|].
    rewrite (trim_all_white _ Hb). reflexivity.
Qed.

Lemma handleSendMessage_guards_witness :
  blank (userData_name initialApp)
  /\ fst (handleSendMessage lockedBackend 7 7000 None initialApp)
     = lockedBackend
  /\ route (snd (handleSendMessage lockedBackend 7 7000 None initialApp))
     = onboarding.
Proof.
  assert (H : blank (userData_name initialApp)) by reflexivity.
  split; [exact H|].
  rewrite (proj1 (handleSendMessage_guards lockedBackend 7 7000 None
                    initialApp) H).
  split; reflexivity.
Defined.

Lemma or_else_nonempty a b :
  (forall t, b = Some t -> t <> []) ->
  forall t, or_else a b = Some t -> t <> [].
Proof.
  unfold or_else. destruct a as [[|c s]|]; intros Hb t H.
  - apply (Hb _ H).
  - injection H as <-. discriminate.
  - apply (Hb _ H).
Qed.

(** X9: a send that the server refuses changes nothing but the console
    and the alerts: the table, the held messages, the active message and
    the route stay as they are, the error is logged, and exactly one
    alert is added, never empty: the first of the error's message,
    error_description and details that is a non-empty text, or, when
    none is, "Failed to send message. Check RLS policies.". *)
Theorem handleSendMessage_refused (db : Backend) (newId created : Z)
    (e : SupabaseError) (a : App) :
  ~ blank (userData_name a) ->
  (exists n, recipient a = Some n /\ ~ blank n) ->
  let res := handleSendMessage db newId created (Some e) a in
  fst res = db
  /\ messages (snd res) = messages a
  /\ activeMessage (snd res) = activeMessage a
  /\ route (snd res) = route a
  /\ console (snd res) = console a ++ [console_error [] e]
  /\ exists text,
       alerts (snd res) = alerts a ++ [text] /\ text <> []
       /\ (forall t, message e = Some t -> t <> [] -> text = t)
       /\ (textless (message e) ->
           forall t, error_description e = Some t -> t <> [] -> text = t)
       /\ (textless (message e) -> textless (error_description e) ->
           forall t, details e = Some t -> t <> [] -> text = t)
       /\ (textless (message e) -> textless (error_description e) ->
           textless (details e) ->
           text = str "Failed to send message. Check RLS policies.").
Proof.
  intros Hn (n & Hr & Hb). cbv zeta. unfold handleSendMessage.
  apply trim_not_blank in Hn, Hb.
  destruct (trim (userData_name a)) as [|c s]; [contradiction|].
  rewrite Hr. destruct (trim n) as [|d t]; [contradiction|].
  cbn [insertMessage showSupabaseError fst snd]. repeat split.
  eexists. split; [reflexivity|].
  assert (Hor : forall x y u, x = Some u -> u <> [] -> or_else x y = Some u).
  { intros x y [|k u] -> Hu; [contradiction | reflexivity]. }
  assert (Hno : forall x y, textless x -> or_else x y = y).
  { intros x y [-> | ->]; reflexivity. }
  unfold errorText. split; [|split; [|split; [|split]]].
  - destruct (or_else _ _) as [text|] eqn:Ht; [|vm_compute; discriminate].
    revert text Ht. do 4 apply or_else_nonempty. discriminate.
  - intros u Hu Hne. rewrite (Hor _ _ u Hu Hne). reflexivity.
  - intros H1 u Hu Hne. rewrite (Hno _ _ H1), (Hor _ _ u Hu Hne). reflexivity.
  - intros H1 H2 u Hu Hne.
    rewrite (Hno _ _ H1), (Hno _ _ H2), (Hor _ _ u Hu Hne). reflexivity.
  - intros H1 H2 H3. rewrite (Hno _ _ H1), (Hno _ _ H2), (Hno _ _ H3).
    reflexivity.
Qed.

Lemma handleSendMessage_refused_witness :
  ~ blank (userData_name bobComposing)
  /\ (exists n, recipient bobComposing = Some n /\ ~ blank n)
  /\ messages (snd (handleSendMessage lockedBackend 7 7000
                      (Some detailsOnly) bobComposing))
     = heldByBob
  /\ alerts (snd (handleSendMessage lockedBackend 7 7000
                    (Some detailsOnly) bobComposing))
     = [str "Key (id)=(7) already exists."].
Proof.
  assert (H1 : ~ blank (userData_name bobComposing))
    by (apply not_blank_cons; reflexivity).
  assert (H2 : exists n, recipient bobComposing = Some n /\ ~ blank n).
  { exists (str "Alice"). split; [reflexivity|].
    apply not_blank_cons. reflexivity. }
  split; [exact H1|]. split; [exact H2|].
  destruct (handleSendMessage_refused lockedBackend 7 7000 detailsOnly
              bobComposing H1 H2)
    as (_ & Hm & _ & _ & _ & text & Ha & _ & _ & _ & Hd & _).
  split; [exact Hm|]. rewrite Ha.
  rewrite (Hd (or_intror eq_refl) (or_introl eq_refl)
              (str "Key (id)=(7) already exists.") eq_refl).
  - reflexivity.
  - discriminate.
Defined.

Lemma filter_id_none (id : Z) (l : list DbRow.t) :
  Forall (fun r => DbRow.id r <> id) l ->
  List.filter (fun r => DbRow.id r =? id) l = [].
Proof.
  induction 1 as [|r l Hr _ IH]; [reflexivity|].
  cbn [List.filter]. destruct (Z.eqb_spec (DbRow.id r) id); [contradiction|].
  exact IH.
Qed.

(** X10: an unlock that cannot be carried out changes nothing but the
    console and the alerts.  That is so when the server refuses, when no
    message is active, and when no row has the active message's id: the
    table, the held messages, the active message and the route stay as
    they are and the one alert "Failed to unlock message (check Supabase
    + RLS)." is added. *)
Theorem unlockVerified_failure (db : Backend) (capture : CaptureRecord)
    (now : JsString) (fault : option SupabaseError) (a : App) :
  fault <> None
  \/ activeMessage a = None
  \/ (exists active, activeMessage a = Some active
        /\ Forall (fun r => DbRow.id r <> Message.id active) (table db)) ->
  let res := unlockVerified db capture now fault a in
  fst res = db
  /\ messages (snd res) = messages a
  /\ activeMessage (snd res) = activeMessage a
  /\ route (snd res) = route a
  /\ alerts (snd res)
     = alerts a ++ [str "Failed to unlock message (check Supabase + RLS)."].
Proof.
  intros H. cbv zeta. unfold unlockVerified.
  destruct (activeMessage a) as [active|] eqn:Ha;
    [|cbn; repeat split; exact Ha].
  assert (Herr : exists e, unlockMessage db (Message.id active)
                             (JsObject capture) now fault = (db, inl e)).
  { unfold unlockMessage. destruct fault as [e|]; [eauto|].
    destruct H as [H | [H | (active' & [= <-] & H)]];
      [contradiction | discriminate |].
    rewrite (filter_id_none _ _ H). eauto. }
  destruct Herr as [e ->]. cbn. repeat split. exact Ha.
Qed.

Lemma unlockVerified_failure_witness :
  (Some permissionDenied <> None
   \/ activeMessage (app staleBobWorld) = None
   \/ (exists active, activeMessage (app staleBobWorld) = Some active
         /\ Forall (fun r => DbRow.id r <> Message.id active)
              (table unlockedBackend)))
  /\ fst (unlockVerified unlockedBackend secondCapture
            (str "2024-01-03T21:00:01.000Z") (Some permissionDenied)
            (app staleBobWorld)) = unlockedBackend.
Proof.
  assert (H : Some permissionDenied <> None
              \/ activeMessage (app staleBobWorld) = None
              \/ (exists active, activeMessage (app staleBobWorld) = Some active
                    /\ Forall (fun r => DbRow.id r <> Message.id active)
                         (table unlockedBackend)))
    by (left; discriminate).
  split; [exact H|].
  exact (proj1 (unlockVerified_failure unlockedBackend secondCapture
                  (str "2024-01-03T21:00:01.000Z") (Some permissionDenied)
                  (app staleBobWorld) H)).
Defined.

(** ** The viewer name, trimmed or not *)

Lemma trimStart_fixed s :
  match s with [] => True | c :: _ => isWhiteSpace c = false end ->
  trimStart s = s.
Proof. destruct s as [|c s]; [reflexivity|]. cbn. intros ->. reflexivity. Qed.

Lemma trimStart_idempotent s : trimStart (trimStart s) = trimStart s.
Proof. apply trimStart_fixed, trimStart_head. Qed.

Lemma trimStart_keeps_last l c :
  isWhiteSpace c = false -> exists l', trimStart (l ++ [c]) = l' ++ [c].
Proof.
  intros Hc. induction l as [|x l IH]; cbn.
  - rewrite Hc. exists []. reflexivity.
  - destruct (isWhiteSpace x); [exact IH|]. exists (x :: l). reflexivity.
Qed.

Lemma trimEnd_keeps_head c t :
  isWhiteSpace c = false -> exists t', trimEnd (c :: t) = c :: t'.
Proof.
  intros Hc. unfold trimEnd. cbn [rev].
  destruct (trimStart_keeps_last (rev t) c Hc) as [l' ->].
  rewrite rev_app_distr. cbn. eauto.
Qed.

Lemma trimEnd_idempotent s : trimEnd (trimEnd s) = trimEnd s.
Proof.
  unfold trimEnd. rewrite rev_involutive, trimStart_idempotent. reflexivity.
Qed.

Lemma trim_idempotent s : trim (trim s) = trim s.
Proof.
  unfold trim.
  assert (H : trimStart (trimEnd (trimStart s)) = trimEnd (trimStart s)).
  { pose proof (trimStart_head s) as Hh.
    destruct (trimStart s) as [|c t]; [reflexivity|].
    destruct (trimEnd_keeps_head c t Hh) as [t' ->].
    apply trimStart_fixed. exact Hh. }
  rewrite H. apply trimEnd_idempotent.
Qed.

Lemma viewer_of_trim s : viewer_of (Some (trim s)) = viewer_of (Some s).
Proof. unfold viewer_of. rewrite trim_idempotent. reflexivity. Qed.

Lemma viewer_of_name_or_You name :
  viewer_of (Some (name_or_You name)) = viewer_of (Some name).
Proof. destruct name; reflexivity. Qed.

Lemma mapRowToMessage_viewer row v1 v2 :
  viewer_of v1 = viewer_of v2 -> mapRowToMessage row v1 = mapRowToMessage row v2.
Proof. intros H. unfold mapRowToMessage. rewrite H. reflexivity. Qed.

(** X11: [mapRowToMessage] depends on the viewer name only through its
    trimmed form: a padded name, the trimmed name, the name as the
    unlock handler passes it ([userData.name || "You"]) and the viewer
    the function has worked out itself all give the same message, so
    the load, channel, send and unlock paths project a row alike. *)
Theorem mapRowToMessage_name_forms (row : DbRow.t) (name : JsString)
    (viewerName : option JsString) :
  mapRowToMessage row (Some (trim name)) = mapRowToMessage row (Some name)
  /\ mapRowToMessage row (Some (name_or_You name))
     = mapRowToMessage row (Some name)
  /\ mapRowToMessage row (Some (viewer_of viewerName))
     = mapRowToMessage row viewerName
  /\ trim (viewer_of viewerName) = viewer_of viewerName.
Proof.
  assert (Hv : trim (viewer_of viewerName) = viewer_of viewerName).
  { destruct viewerName as [s|]; [|reflexivity]. cbn [viewer_of].
    destruct (trim s) as [|c t] eqn:Ht; [reflexivity|].
    rewrite <- Ht. apply trim_idempotent. }
  repeat split.
  - apply mapRowToMessage_viewer, viewer_of_trim.
  - apply mapRowToMessage_viewer, viewer_of_name_or_You.
  - apply mapRowToMessage_viewer. cbn [viewer_of]. rewrite Hv.
    destruct (viewer_of viewerName) as [|c t] eqn:E; [|reflexivity].
    destruct viewerName as [s|]; [|discriminate].
    cbn [viewer_of] in E. destruct (trim s); discriminate.
  - exact Hv.
Qed.

(** ** A write and its own change event *)

Lemma merge_fixed mapped held :
  Forall (fun m => Message.id m = Message.id mapped -> m = mapped) held ->
  Exists (fun m => Message.id m = Message.id mapped) held ->
  merge mapped held = held.
Proof.
  intros Hall Hex. unfold merge.
  destruct (list_find _ held) as [[idx x]|] eqn:Hfind.
  - apply list_find_Some in Hfind as (Hidx & Hx & _).
    apply list_insert_id. rewrite Hidx. f_equal.
    rewrite (Forall_forall _) in Hall. apply Hall; [|exact Hx].
    apply list_elem_of_lookup. eauto.
  - exfalso. apply list_find_None in Hfind.
    apply Exists_exists in Hex as (m & Hm & Hid).
    rewrite (Forall_forall _) in Hfind. exact (Hfind m Hm Hid).
Qed.

(** X12: the change event of the client's own insert, handled after the
    send has been applied, leaves the component state as it is: the
    letter is not listed twice. *)
Theorem send_then_own_event (db : Backend) (newId created : Z) (a : App) :
  ~ blank (userData_name a) ->
  (exists n, recipient a = Some n /\ ~ blank n) ->
  let res := handleSendMessage db newId created None a in
  exists row,
    feed (fst res) = feed db ++ [row]
    /\ messages (snd res)
       = mapRowToMessage row (Some (userData_name a)) :: messages a
    /\ channel_event (Some row) (snd res) = snd res.
Proof.
  intros Hn (n & Hr & Hb). cbv zeta.
  pose proof (proj1 (mapRowToMessage_name_forms
    {| DbRow.id := newId; DbRow.sender := trim (userData_name a);
       DbRow.recipient := trim n; DbRow.body := body_of (messageText a);
       DbRow.locked := JsBool true; DbRow.created_at := created;
       DbRow.receive_at := JsNull;
       DbRow.send_photo := nullish_or (sendPhoto a) JsNull;
       DbRow.receive_photo := JsNull |} (userData_name a) None)) as Hname.
  unfold handleSendMessage. apply trim_not_blank in Hn, Hb.
  destruct (trim (userData_name a)) as [|c s] eqn:Hs; [contradiction|].
  rewrite Hr. destruct (trim n) as [|d t] eqn:Ht; [contradiction|].
  cbn [insertMessage fst snd feed].
  eexists. split; [reflexivity|]. split.
  - cbn [messages setRoute setActiveMessage setMessages]. f_equal. exact Hname.
  - unfold channel_event.
    cbn [userData_name setRoute setActiveMessage setMessages]. rewrite Hs.
    unfold setMessages at 1.
    cbn [route userData_name messages activeMessage sendPhoto recipient
         messageText console alerts setRoute setActiveMessage setMessages].
    unfold on_postgres_changes. cbn [DbRow.sender DbRow.recipient].
    rewrite (bool_decide_eq_false_2 (c :: s <> c :: s)) by auto.
    cbn [andb]. unfold merge. cbn [list_find mapRowToMessage Message.id DbRow.id].
    rewrite decide_True by reflexivity. reflexivity.
Qed.

Lemma send_then_own_event_witness :
  ~ blank (userData_name bobComposing)
  /\ (exists n, recipient bobComposing = Some n /\ ~ blank n)
  /\ length (messages (snd (handleSendMessage lockedBackend 7 7000 None
                              bobComposing))) = 3%nat.
Proof.
  assert (H1 : ~ blank (userData_name bobComposing))
    by (apply not_blank_cons; reflexivity).
  assert (H2 : exists n, recipient bobComposing = Some n /\ ~ blank n).
  { exists (str "Alice"). split; [reflexivity|].
    apply not_blank_cons. reflexivity. }
  split; [exact H1|]. split; [exact H2|].
  destruct (send_then_own_event lockedBackend 7 7000 bobComposing H1 H2)
    as (row & _ & Hm & _).
  rewrite Hm. reflexivity.
Defined.

Lemma identity_fields_unlock_in id photo now r :
  identity_fields (unlock_in id photo now r) = identity_fields r.
Proof. unfold unlock_in. destruct (DbRow.id r =? id); reflexivity. Qed.

Lemma identity_fields_unlocked id photo now (l : list DbRow.t) :
  map identity_fields (map (unlock_in id photo now) l) = map identity_fields l.
Proof.
  rewrite map_map. apply map_ext. intros r. apply identity_fields_unlock_in.
Qed.

Lemma filter_singleton_id (id : Z) (l : list DbRow.t) r :
  List.filter (fun r => DbRow.id r =? id) l = [r] -> DbRow.id r = id.
Proof.
  intros H. assert (Hin : In r (List.filter (fun r => DbRow.id r =? id) l))
    by (rewrite H; left; reflexivity).
  apply filter_In in Hin as [_ Hin]. apply Z.eqb_eq, Hin.
Qed.

Lemma setMessages_fixed f a :
  f (messages a) = messages a -> setMessages f a = a.
Proof. destruct a. unfold setMessages. cbn. intros H. rewrite H. reflexivity. Qed.

(** X13: an unlock that goes through replaces, in place, every held
    message that has the active id by the message projected from the
    returned row, and touches no other: the ids of the held messages and
    their order are as before.  The new message is unlocked and
    archived, carries the capture and the time, and keeps the body and
    sentAt of the row; it becomes the active message and the route
    becomes printing.  In the table no row is added or removed and no
    identifying field changes. *)
Theorem unlockVerified_success (db : Backend) (capture : CaptureRecord)
    (now : JsString) (a : App) (active : Message.t) (r : DbRow.t) :
  activeMessage a = Some active ->
  List.filter (fun r => DbRow.id r =? Message.id active) (table db) = [r] ->
  let res := unlockVerified db capture now None a in
  let row := unlock_update (JsObject capture) now r in
  let mapped := mapRowToMessage row (Some (userData_name a)) in
  table (fst res)
  = map (unlock_in (Message.id active) (JsObject capture) now) (table db)
  /\ feed (fst res) = feed db ++ [row]
  /\ map identity_fields (table (fst res)) = map identity_fields (table db)
  /\ messages (snd res)
     = map (fun m => if bool_decide (Message.id m = Message.id active)
                     then mapped else m) (messages a)
  /\ map Message.id (messages (snd res)) = map Message.id (messages a)
  /\ activeMessage (snd res) = Some mapped
  /\ route (snd res) = printing
  /\ Message.id mapped = Message.id active
  /\ Message.locked mapped = false
  /\ Message.archived mapped = true
  /\ Message.receivePhoto mapped = JsObject capture
  /\ Message.receiveAt mapped = JsStr now
  /\ Message.body mapped = DbRow.body r
  /\ Message.sentAt mapped = DbRow.created_at r.
Proof.
  intros Ha Hf. cbv zeta.
  pose proof (filter_singleton_id _ _ _ Hf) as Hid.
  pose proof (proj1 (proj2 (mapRowToMessage_name_forms
    (unlock_update (JsObject capture) now r) (userData_name a) None)))
    as Hname.
  unfold unlockVerified, unlockMessage. rewrite Ha, Hf.
  cbn [fst snd table feed]. rewrite Hname.
  assert (Hmid : Message.id (mapRowToMessage
                   (unlock_update (JsObject capture) now r)
                   (Some (userData_name a))) = Message.id active)
    by exact Hid.
  split; [reflexivity|]. split; [reflexivity|].
  split; [apply identity_fields_unlocked|].
  split; [cbn [messages setRoute setMessages setActiveMessage];
          rewrite Hmid; reflexivity|].
  split.
  { cbn [messages setRoute setMessages setActiveMessage].
    rewrite map_map. apply map_ext_in. intros m _.
    case_bool_decide as Hm; [symmetry; exact Hm | reflexivity]. }
  repeat split. exact Hid.
Qed.

Lemma unlockVerified_success_witness :
  activeMessage (app staleBobWorld)
  = Some (mapRowToMessage aliceToBob (Some (str "Bob")))
  /\ List.filter (fun r => DbRow.id r =? 1) (table lockedBackend) = [aliceToBob]
  /\ route (snd (unlockVerified lockedBackend bobCapture
                   (str "2024-01-02T20:00:01.000Z") None (app staleBobWorld)))
     = printing.
Proof.
  split; [reflexivity|]. split; [reflexivity|].
  destruct (unlockVerified_success lockedBackend bobCapture
              (str "2024-01-02T20:00:01.000Z") (app staleBobWorld)
              (mapRowToMessage aliceToBob (Some (str "Bob"))) aliceToBob
              eq_refl eq_refl) as (_ & _ & _ & _ & _ & _ & H & _).
  exact H.
Defined.

(** X14: the change event of the client's own unlock, handled after the
    unlock has been applied, leaves the component state as it is,
    provided the client holds the message it unlocked. *)
Theorem unlock_then_own_event (db : Backend) (capture : CaptureRecord)
    (now : JsString) (a : App) (active : Message.t) (r : DbRow.t) :
  activeMessage a = Some active ->
  List.filter (fun r => DbRow.id r =? Message.id active) (table db) = [r] ->
  Exists (fun m => Message.id m = Message.id active) (messages a) ->
  let res := unlockVerified db capture now None a in
  channel_event (Some (unlock_update (JsObject capture) now r)) (snd res)
  = snd res.
Proof.
  intros Ha Hf Hex. cbv zeta.
  destruct (unlockVerified_success db capture now a active r Ha Hf)
    as (_ & _ & _ & Hms & _ & _ & _ & Hmid & _).
  cbv zeta in Hms, Hmid.
  set (res := unlockVerified db capture now None a) in *.
  assert (Hname : userData_name (snd res) = userData_name a).
  { unfold res, unlockVerified, unlockMessage. rewrite Ha, Hf. reflexivity. }
  unfold channel_event. rewrite Hname.
  destruct (trim (userData_name a)) as [|c s] eqn:Hs; [reflexivity|].
  apply setMessages_fixed. unfold on_postgres_changes.
  destruct (_ && _); [reflexivity|].
  match goal with
  | |- merge ?x _ = _ =>
      assert (Hmapped :
                x = mapRowToMessage (unlock_update (JsObject capture) now r)
                      (Some (userData_name a)))
  end.
  { rewrite <- Hs. apply mapRowToMessage_name_forms. exact None. }
  rewrite Hmapped, Hms. apply merge_fixed.
  - apply Forall_map, Forall_forall. intros m _. cbv beta.
    case_bool_decide as Hm; [reflexivity|].
    intros Hid. exfalso. apply Hm. rewrite Hid. exact Hmid.
  - apply Exists_exists in Hex as (m & Hm & Hid).
    apply Exists_exists. eexists. split.
    + apply list_elem_of_In, in_map, list_elem_of_In, Hm.
    + cbv beta. rewrite bool_decide_eq_true_2 by exact Hid. reflexivity.
Qed.

Lemma unlock_then_own_event_witness :
  activeMessage (app staleBobWorld)
  = Some (mapRowToMessage aliceToBob (Some (str "Bob")))
  /\ List.filter (fun r => DbRow.id r =? 1) (table lockedBackend) = [aliceToBob]
  /\ Exists (fun m => Message.id m = 1) (messages (app staleBobWorld))
  /\ channel_event
       (Some (unlock_update (JsObject bobCapture)
                (str "2024-01-02T20:00:01.000Z") aliceToBob))
       (snd (unlockVerified lockedBackend bobCapture
               (str "2024-01-02T20:00:01.000Z") None (app staleBobWorld)))
     = snd (unlockVerified lockedBackend bobCapture
              (str "2024-01-02T20:00:01.000Z") None (app staleBobWorld)).
Proof.
  assert (Hex : Exists (fun m => Message.id m = 1) (messages (app staleBobWorld)))
    by (left; reflexivity).
  split; [reflexivity|]. split; [reflexivity|]. split; [exact Hex|].
  exact (unlock_then_own_event lockedBackend bobCapture
           (str "2024-01-02T20:00:01.000Z") (app staleBobWorld)
           (mapRowToMessage aliceToBob (Some (str "Bob"))) aliceToBob
           eq_refl eq_refl Hex).
Defined.

(** ** Locked or archived *)

Lemma mapRowToMessage_life row viewerName :
  row_life row -> msg_life (mapRowToMessage row viewerName).
Proof.
  intros [(Hl & Hp & _) | (Hl & c & now & Hp & _)]; [left | right];
    cbn; rewrite Hl, Hp; cbn; eauto.
Qed.

Lemma unlock_update_life c now r : row_life (unlock_update (JsObject c) now r).
Proof. right. split; [reflexivity|]. exists c, now. split; reflexivity. Qed.

Lemma unlockMessage_life db id c now fault :
  Forall row_life (table db) -> Forall row_life (feed db) ->
  let res := unlockMessage db id (JsObject c) now fault in
  Forall row_life (table (fst res)) /\ Forall row_life (feed (fst res))
  /\ (forall row, snd res = inr row -> row_life row).
Proof.
  intros Ht Hfd.
  destruct (unlockMessage_cases db id (JsObject c) now fault)
    as [[Hdb [e He]] | (r & Hf & _ & Hres)]; cbv zeta.
  - rewrite Hdb, He. repeat split; auto. discriminate.
  - rewrite Hres. cbn [fst snd table feed]. repeat split.
    + apply Forall_map. eapply Forall_impl; [exact Ht|].
      intros x Hx. cbn. unfold unlock_in.
      destruct (DbRow.id x =? id); [apply unlock_update_life | exact Hx].
    + apply Forall_app. split; [exact Hfd|].
      constructor; [apply unlock_update_life | constructor].
    + intros row [= <-]. apply unlock_update_life.
Qed.

Lemma insertMessage_life db sender recipient body photo newId created fault :
  Forall row_life (table db) -> Forall row_life (feed db) ->
  let res := insertMessage db sender recipient body photo newId created fault in
  Forall row_life (table (fst res)) /\ Forall row_life (feed (fst res))
  /\ (forall row, snd res = inr row -> row_life row).
Proof.
  intros Ht Hfd. unfold insertMessage. destruct fault as [e|]; cbv zeta.
  - repeat split; auto. discriminate.
  - cbn [fst snd table feed].
    match goal with
    | |- Forall _ (_ ++ [?d]) /\ _ =>
        assert (Hr : row_life d) by (left; repeat split)
    end.
    repeat split.
    + apply Forall_app. split; [exact Ht | constructor; [exact Hr | constructor]].
    + apply Forall_app. split; [exact Hfd | constructor; [exact Hr | constructor]].
    + intros row [= <-]. exact Hr.
Qed.

Lemma world_life_step w w' : step w w' -> world_life w -> world_life w'.
Proof.
  intros Hstep (Ht & Hfd & Hm & Ha).
  destruct Hstep as
    [w a' Hmsg Hact _ | w m Hin | w fault isMounted | w payload_new Hin
    | w newId created fault res | w capture now fault _ res
    | w sender recipient body photo newId created fault _ res
    | w id capture now fault res]; unfold world_life; cbn [backend app].
  - rewrite Hmsg, Hact. auto.
  - repeat split; auto.
    + unfold handleOpenMessage. destruct (canUnlock m); exact Hm.
    + intros m' Hm'.
      assert (Some m = Some m') as [= <-].
      { rewrite <- Hm'. unfold handleOpenMessage.
        destruct (canUnlock m); reflexivity. }
      rewrite (Forall_forall msg_life) in Hm. apply Hm, list_elem_of_In, Hin.
  - repeat split; auto.
    + unfold load. destruct (trim (userData_name (app w))) as [|c v]; [exact Hm|].
      unfold fetchMessagesForUser. destruct fault as [e|]; [exact Hm|].
      destruct isMounted; [|exact Hm].
      cbn [messages setMessages]. apply Forall_map.
      rewrite (Forall_forall (fun r => msg_life (mapRowToMessage r _))).
      intros r Hr. apply mapRowToMessage_life.
      apply list_elem_of_In, Array_sort_In, filter_In in Hr as [Hr _].
      rewrite (Forall_forall row_life) in Ht. apply Ht, list_elem_of_In, Hr.
    + intros m Hma. apply Ha. rewrite <- Hma.
      unfold load. destruct (trim (userData_name (app w))) as [|c v]; [reflexivity|].
      unfold fetchMessagesForUser. destruct fault as [e|]; [reflexivity|].
      destruct isMounted; reflexivity.
  - repeat split; auto.
    + unfold channel_event.
      destruct (trim (userData_name (app w))) as [|c v]; [exact Hm|].
      cbn [messages setMessages]. unfold on_postgres_changes.
      destruct payload_new as [row|]; [|exact Hm].
      destruct (_ && _); [exact Hm|].
      apply merge_Forall; [|exact Hm].
      apply mapRowToMessage_life.
      rewrite (Forall_forall row_life) in Hfd.
      apply Hfd, list_elem_of_In, Hin. reflexivity.
    + intros m Hma. apply Ha. rewrite <- Hma. unfold channel_event.
      destruct (trim (userData_name (app w))); reflexivity.
  - destruct (handleSendMessage_cases (backend w) newId created fault (app w))
      as [(Hdb & Hms & Hac) | (s & rn & row & _ & _ & Hins & Hms & Hac & _)];
      fold res in Hdb, Hms, Hac || fold res in Hins, Hms, Hac.
    + rewrite Hdb, Hms, Hac. auto.
    + pose proof (insertMessage_life (backend w) s rn (body_of (messageText (app w)))
                    (sendPhoto (app w)) newId created fault Ht Hfd) as Hinv.
      cbv zeta in Hinv. rewrite Hins in Hinv. cbn [fst snd] in Hinv.
      destruct Hinv as (Ht' & Hfd' & Hrow).
      assert (Hmapped : msg_life (mapRowToMessage row (Some s)))
        by (apply mapRowToMessage_life, Hrow; reflexivity).
      rewrite Hms, Hac. repeat split; auto.
      intros m [= <-]. exact Hmapped.
  - destruct (unlockVerified_cases (backend w) capture now fault (app w))
      as [(Hdb & Hms & Hac)
         | (active & row & mapped & _ & Hunl & Hmap & Hms & Hac & _)];
      fold res in Hdb, Hms, Hac || fold res in Hunl, Hms, Hac.
    + rewrite Hdb, Hms, Hac. auto.
    + pose proof (unlockMessage_life (backend w) (Message.id active) capture
                    now fault Ht Hfd) as Hinv.
      cbv zeta in Hinv. rewrite Hunl in Hinv. cbn [fst snd] in Hinv.
      destruct Hinv as (Ht' & Hfd' & Hrow).
      assert (Hmapped : msg_life mapped)
        by (subst mapped; apply mapRowToMessage_life, Hrow; reflexivity).
      rewrite Hms, Hac. repeat split; auto.
      * apply Forall_map. eapply Forall_impl; [exact Hm|].
        intros x Hx. simpl. case_bool_decide; assumption.
      * intros m [= <-]. exact Hmapped.
  - destruct (insertMessage_life (backend w) sender recipient body photo
                newId created fault Ht Hfd) as (Ht' & Hfd' & _).
    auto.
  - destruct (unlockMessage_life (backend w) id capture now fault Ht Hfd)
      as (Ht' & Hfd' & _).
    auto.
Qed.

Lemma reachable_life w : reachable w -> world_life w.
Proof.
  induction 1 as [|w w' _ IH Hstep].
  - repeat split; try constructor. discriminate.
  - eapply world_life_step; eauto.
Qed.

(** X15: in every state the application can reach, a row is locked
    exactly when it has no receive_photo, and a held message is locked
    exactly when it is not archived; so the client offers the unlock
    capture for a held message exactly when the message is locked, and
    no state shows a letter that is unlocked without a capture. *)
Theorem locked_iff_not_archived (w : World) :
  reachable w ->
  (forall row,
     In row (table (backend w)) \/ In row (feed (backend w)) ->
     truthy (DbRow.locked row) = negb (non_null (DbRow.receive_photo row)))
  /\ (forall m,
        In m (messages (app w)) \/ activeMessage (app w) = Some m ->
        Message.locked m = negb (Message.archived m)
        /\ canUnlock m = Message.locked m
        /\ non_null (Message.receivePhoto m) = Message.archived m).
Proof.
  intros Hw. destruct (reachable_life w Hw) as (Ht & Hfd & Hm & Ha).
  rewrite (Forall_forall row_life) in Ht, Hfd.
  rewrite (Forall_forall msg_life) in Hm.
  split.
  - intros row Hin.
    assert (Hr : row_life row)
      by (destruct Hin as [Hin | Hin];
          [apply Ht | apply Hfd]; apply list_elem_of_In, Hin).
    destruct Hr as [(Hl & Hp & _) | (Hl & c & now & Hp & _)];
      rewrite Hl, Hp; reflexivity.
  - intros m Hin.
    assert (Hi : msg_life m)
      by (destruct Hin as [Hin | Hin];
          [apply Hm, list_elem_of_In, Hin | apply Ha, Hin]).
    unfold canUnlock.
    destruct Hi as [(Hl & Hp & Har) | (Hl & Har & c & Hp)];
      rewrite Hl, Hp, Har; repeat split.
Qed.

Lemma locked_iff_not_archived_witness :
  reachable bobWorld
  /\ Forall (fun m => Message.locked m = negb (Message.archived m))
       (messages (app bobWorld)).
Proof.
  split; [exact bobWorld_reachable|].
  apply Forall_forall. intros m Hm.
  apply (proj2 (locked_iff_not_archived bobWorld bobWorld_reachable) m).
  left. apply list_elem_of_In, Hm.
Defined.

(** ** What a step does to the table *)

Lemma insertMessage_table db sender recipient body photo newId created fault :
  let res := insertMessage db sender recipient body photo newId created fault in
  exists added,
    table (fst res) = table db ++ added /\ (length added <= 1)%nat.
Proof.
  cbv zeta. unfold insertMessage. destruct fault as [e|]; cbn [fst table].
  - exists []. rewrite app_nil_r. split; [reflexivity | cbn; lia].
  - eexists [_]. split; [reflexivity | cbn; lia].
Qed.

Lemma unlockMessage_table db id photo now fault :
  let res := unlockMessage db id photo now fault in
  map identity_fields (table (fst res)) = map identity_fields (table db)
  /\ length (table (fst res)) = length (table db).
Proof.
  cbv zeta.
  destruct (unlockMessage_cases db id photo now fault)
    as [[Hdb _] | (r & _ & _ & Hres)]; cbv zeta in *.
  - rewrite Hdb. split; reflexivity.
  - rewrite Hres. cbn [fst table].
    split; [apply identity_fields_unlocked | apply length_map].
Qed.

(** X16: no step of the client, of another client or of the channel
    removes a row or changes an identifying field of one (id, sender,
    recipient, body, created_at, send_photo): after the step the table
    holds the rows it held, in the same order and with the same
    identifying fields, followed by at most one new row. *)
Theorem step_keeps_rows (w w' : World) :
  step w w' ->
  exists added,
    map identity_fields (table (backend w'))
    = map identity_fields (table (backend w)) ++ map identity_fields added
    /\ (length added <= 1)%nat.
Proof.
  assert (Hsame : forall t : Table,
            exists added,
              map identity_fields t
              = map identity_fields t ++ map identity_fields added
              /\ (length added <= 1)%nat).
  { intros t. exists []. cbn. rewrite app_nil_r. split; [reflexivity | lia]. }
  assert (Hins : forall db s r b p i c f,
            exists added,
              map identity_fields (table (fst (insertMessage db s r b p i c f)))
              = map identity_fields (table db) ++ map identity_fields added
              /\ (length added <= 1)%nat).
  { intros. destruct (insertMessage_table db s r b p i c f) as (added & -> & Hl).
    exists added. rewrite map_app. auto. }
  assert (Hunl : forall db i p n f,
            exists added,
              map identity_fields (table (fst (unlockMessage db i p n f)))
              = map identity_fields (table db) ++ map identity_fields added
              /\ (length added <= 1)%nat).
  { intros. exists []. cbn. rewrite app_nil_r.
    split; [apply unlockMessage_table | lia]. }
  intros Hstep.
  destruct Hstep as
    [w a' _ _ _ | w m _ | w fault isMounted | w payload_new _
    | w newId created fault res | w capture now fault _ res
    | w sender recipient body photo newId created fault _ res
    | w id capture now fault res]; cbn [backend]; try apply Hsame.
  - subst res. unfold handleSendMessage.
    destruct (trim (userData_name (app w))) as [|c s]; [apply Hsame|].
    destruct (recipient (app w)) as [n|]; [|apply Hsame].
    destruct (trim n) as [|d t]; [apply Hsame|].
    specialize (Hins (backend w) (c :: s) (d :: t)
                  (body_of (messageText (app w))) (sendPhoto (app w))
                  newId created fault).
    destruct (insertMessage _ _ _ _ _ _ _ _) as [db' [e|row]]; exact Hins.
  - subst res. unfold unlockVerified.
    destruct (activeMessage (app w)) as [active|]; [|apply Hsame].
    specialize (Hunl (backend w) (Message.id active) (JsObject capture)
                  now fault).
    destruct (unlockMessage _ _ _ _ _) as [db' [e|row]]; exact Hunl.
  - apply Hins.
  - apply Hunl.
Qed.

Lemma step_keeps_rows_witness :
  step {| backend := lockedBackend; app := initialApp |}
       {| backend := unlockedBackend; app := initialApp |}
  /\ exists added,
       map identity_fields (table unlockedBackend)
       = map identity_fields (table lockedBackend)
         ++ map identity_fields added
       /\ (length added <= 1)%nat.
Proof.
  assert (Hs : step {| backend := lockedBackend; app := initialApp |}
                    {| backend := unlockedBackend; app := initialApp |})
    by exact (step_peer_unlock
                {| backend := lockedBackend; app := initialApp |}
                1 bobCapture (str "2024-01-02T20:00:01.000Z") None).
  split; [exact Hs|].
  exact (step_keeps_rows _ _ Hs).
Defined.

(** ** The merge and the ids *)

Lemma map_id_insert (l : list Message.t) idx x mapped :
  l !! idx = Some x -> Message.id x = Message.id mapped ->
  map Message.id (<[idx:=mapped]> l) = map Message.id l.
Proof.
  revert idx. induction l as [|y l IH]; intros [|idx] Hl Hid; try discriminate.
  - cbn in *. injection Hl as ->. rewrite Hid. reflexivity.
  - cbn in *. f_equal. apply IH; assumption.
Qed.

Lemma merge_ids mapped prev :
  map Message.id (merge mapped prev) = map Message.id prev
  \/ (map Message.id (merge mapped prev)
      = Message.id mapped :: map Message.id prev
      /\ ~ In (Message.id mapped) (map Message.id prev)).
Proof.
  unfold merge.
  destruct (list_find _ prev) as [[idx x]|] eqn:Hfind.
  - left. apply list_find_Some in Hfind as (Hidx & Hx & _).
    eapply map_id_insert; eauto.
  - right. split; [reflexivity|].
    apply list_find_None in Hfind. rewrite (Forall_forall _) in Hfind.
    intros Hin. apply in_map_iff in Hin as (m & Hid & Hm).
    exact (Hfind m (proj2 (list_elem_of_In _ _) Hm) Hid).
Qed.

Lemma merge_keeps_others mapped prev m :
  In m prev -> Message.id m <> Message.id mapped -> In m (merge mapped prev).
Proof.
  intros Hin Hne. unfold merge.
  destruct (list_find _ prev) as [[idx x]|] eqn:Hfind; [|right; exact Hin].
  apply list_find_Some in Hfind as (Hidx & Hx & _).
  apply list_elem_of_In. apply list_elem_of_In in Hin.
  apply list_elem_of_lookup in Hin as [j Hj].
  apply list_elem_of_lookup. exists j.
  rewrite list_lookup_insert_ne; [exact Hj|].
  intros <-. rewrite Hidx in Hj. injection Hj as ->. contradiction.
Qed.

(** X17: the channel handler keeps the held ids distinct: if no two held
    messages share an id before an event, none do after it.  It never
    drops a message of another id, and the collection grows by at most
    one message. *)
Theorem on_postgres_changes_distinct (viewerName : JsString)
    (payload_new : option DbRow.t) (prev : list Message.t) :
  let next := on_postgres_changes viewerName payload_new prev in
  (distinct_ids prev -> distinct_ids next)
  /\ (forall m, In m prev ->
                (forall row, payload_new = Some row ->
                             Message.id m <> DbRow.id row) ->
                In m next)
  /\ (length prev <= length next <= S (length prev))%nat.
Proof.
  cbv zeta. unfold on_postgres_changes.
  destruct payload_new as [row|]; [|repeat split; auto; lia].
  destruct (_ && _); [repeat split; auto; lia|].
  set (mapped := mapRowToMessage row (Some viewerName)).
  split; [|split].
  - unfold distinct_ids. intros Hd.
    destruct (merge_ids mapped prev) as [-> | [-> Hn]];
      [exact Hd | constructor; [|exact Hd]].
    intros Hin. apply Hn, list_elem_of_In, Hin.
  - intros m Hin Hne. apply merge_keeps_others; [exact Hin|].
    exact (Hne row eq_refl).
  - destruct (merge_ids mapped prev) as [H | [H _]];
      apply (f_equal (@length Z)) in H; cbn in H;
      rewrite !length_map in H; lia.
Qed.

Lemma on_postgres_changes_distinct_witness :
  distinct_ids heldByBob
  /\ distinct_ids
       (on_postgres_changes (str "Bob")
          (Some (unlock_update (JsObject bobCapture)
                   (str "2024-01-02T20:00:01.000Z") aliceToBob))
          heldByBob).
Proof.
  assert (H : distinct_ids heldByBob).
  { unfold distinct_ids. cbn.
    constructor; [|constructor; [|constructor]].
    - intros Hin. apply list_elem_of_In in Hin as [Hin | []]. discriminate.
    - intros Hin. apply list_elem_of_In in Hin as []. }
  split; [exact H|].
  exact (proj1 (on_postgres_changes_distinct (str "Bob") _ heldByBob) H).
Defined.

(** ** The exhibition pair *)

(** X18: [getLockedCounterparty] gives a counterparty exactly to the two
    exhibition users; the counterparty is the other exhibition user,
    never the user itself, and the counterparty's counterparty is the
    user again. *)
Theorem getLockedCounterparty_pairs (name : JsString) :
  (isExhibitionUser name = true
   <-> exists other, getLockedCounterparty name = Some other)
  /\ (forall other,
        getLockedCounterparty name = Some other ->
        other <> name
        /\ isExhibitionUser other = true
        /\ getLockedCounterparty other = Some name).
Proof.
  unfold isExhibitionUser, getLockedCounterparty.
  destruct (decide (name = EXHIBITION_A)) as [->|Ha];
    [|destruct (decide (name = EXHIBITION_B)) as [->|Hb]].
  - split; [split; [eauto | reflexivity]|].
    intros other [= <-]. repeat split. discriminate.
  - split; [split; [eauto | reflexivity]|].
    intros other [= <-]. repeat split. discriminate.
  - rewrite !bool_decide_eq_false_2 by assumption.
    split; [split; [discriminate | intros [? [=]]] | intros ? [=]].
Qed.

Lemma getLockedCounterparty_pairs_witness :
  getLockedCounterparty (str "Person A") = Some (str "Person B")
  /\ getLockedCounterparty (str "Person B") = Some (str "Person A").
Proof.
  assert (H : getLockedCounterparty (str "Person A") = Some (str "Person B"))
    by reflexivity.
  split; [exact H|].
  exact (proj2 (proj2 (proj2 (getLockedCounterparty_pairs (str "Person A"))
                         (str "Person B") H))).
Defined.

(** X19: in the exhibition build a letter of an exhibition user always
    goes to the other exhibition user with the fixed text, whatever
    recipient was chosen and whatever was composed; for every other
    user the handler does exactly what the ordinary [handleSendMessage]
    does. *)
Theorem handleSendMessage_exhibition_forced (db : Backend)
    (newId created : Z) (fault : option SupabaseError) (a : App) :
  (isExhibitionUser (trim (userData_name a)) = false ->
   handleSendMessage_exhibition db newId created fault a
   = handleSendMessage db newId created fault a)
  /\ (isExhibitionUser (trim (userData_name a)) = true ->
      fault = None ->
      exists other row,
        getLockedCounterparty (trim (userData_name a)) = Some other
        /\ table (fst (handleSendMessage_exhibition db newId created fault a))
           = table db ++ [row]
        /\ DbRow.sender row = trim (userData_name a)
        /\ DbRow.recipient row = other
        /\ DbRow.body row = EXHIBITION_MESSAGE).
Proof.
  split.
  - intros Hx. unfold handleSendMessage_exhibition, handleSendMessage.
    destruct (trim (userData_name a)) as [|c s] eqn:Hs; [reflexivity|].
    assert (Hc : getLockedCounterparty (c :: s) = None).
    { destruct (getLockedCounterparty (c :: s)) as [other|] eqn:Ho;
        [|reflexivity].
      assert (isExhibitionUser (c :: s) = true)
        by (apply getLockedCounterparty_pairs; eauto).
      congruence. }
    rewrite Hc, Hx.
    destruct (recipient a) as [n|]; [|reflexivity].
    destruct (trim n); reflexivity.
  - intros Hx ->.
    destruct (proj1 (proj1 (getLockedCounterparty_pairs _)) Hx)
      as [other Ho].
    exists other. unfold handleSendMessage_exhibition.
    destruct (trim (userData_name a)) as [|c s] eqn:Hs; [discriminate|].
    rewrite Ho, Hx.
    assert (Hne : other <> []).
    { unfold getLockedCounterparty in Ho.
      repeat case_bool_decide; inversion Ho; discriminate. }
    destruct other as [|d t]; [contradiction|].
    cbn [insertMessage fst snd table]. eexists. repeat split.
Qed.

Lemma handleSendMessage_exhibition_forced_witness :
  isExhibitionUser (trim (userData_name bobComposing)) = false
  /\ handleSendMessage_exhibition lockedBackend 7 7000 None bobComposing
     = handleSendMessage lockedBackend 7 7000 None bobComposing.
Proof.
  assert (H : isExhibitionUser (trim (userData_name bobComposing)) = false)
    by reflexivity.
  split; [exact H|].
  exact (proj1 (handleSendMessage_exhibition_forced lockedBackend 7 7000
                  None bobComposing) H).
Defined.

(** ** Loading *)

Lemma sort_insert_map {A B} (f : A -> B) (cmpA : A -> A -> Z)
    (cmpB : B -> B -> Z) x l :
  (forall a b, cmpB (f a) (f b) = cmpA a b) ->
  map f (sort_insert cmpA x l) = sort_insert cmpB (f x) (map f l).
Proof.
  intros H. induction l as [|y l IH]; [reflexivity|].
  cbn [sort_insert map]. rewrite H.
  destruct (0 <? cmpA x y); cbn [map]; [rewrite IH|]; reflexivity.
Qed.

Lemma Array_sort_map {A B} (f : A -> B) (cmpA : A -> A -> Z)
    (cmpB : B -> B -> Z) l :
  (forall a b, cmpB (f a) (f b) = cmpA a b) ->
  map f (Array_sort cmpA l) = Array_sort cmpB (map f l).
Proof.
  intros H. induction l as [|x l IH]; [reflexivity|].
  cbn [Array_sort map]. rewrite (sort_insert_map f cmpA cmpB _ _ H), IH.
  reflexivity.
Qed.

Lemma sortedMessages_fixed l :
  StronglySorted newer_first l -> sortedMessages l = l.
Proof.
  unfold sortedMessages. induction 1 as [|x l Hl IH Hx]; [reflexivity|].
  cbn [Array_sort]. rewrite IH. apply sort_insert_front.
  eapply Forall_impl; [exact Hx|]. intros z Hz. exact Hz.
Qed.

Lemma load_messages db a c v :
  trim (userData_name a) = c :: v ->
  messages (load db None true a)
  = sortedMessages
      (map (fun r => mapRowToMessage r (Some (c :: v)))
         (List.filter
            (fun r => bool_decide (DbRow.sender r = c :: v)
                      || bool_decide (DbRow.recipient r = c :: v))
            (table db))).
Proof.
  intros Hs. unfold load. rewrite Hs. unfold fetchMessagesForUser.
  assert (Ht : trim (c :: v) = c :: v) by (rewrite <- Hs; apply trim_idempotent).
  cbv zeta. rewrite Ht. cbn [messages setMessages].
  apply Array_sort_map. reflexivity.
Qed.

Lemma no_backslash_Alice : no_backslash (str "Alice").
Proof.
  unfold no_backslash. vm_compute. repeat (constructor; [discriminate|]).
  constructor.
Qed.

Lemma no_backslash_Bob : no_backslash (str "Bob").
Proof.
  unfold no_backslash. vm_compute. repeat (constructor; [discriminate|]).
  constructor.
Qed.

(** X20: a load that succeeds replaces the held messages, whatever they
    were, by projections of rows of the table; every held message shows
    "You" on one side, and the list is already in the order of the sorted
    read, most recent first.  When the viewer's name has no backslash, so
    that the quoted text the request carries is that name with its quotes
    escaped, the rows are exactly those sent by or to the viewer: every
    such row of the table is held and every held message involves the
    viewer.  A load that settles after the cleanup has run changes
    nothing. *)
Theorem load_replaces (db : Backend) (a : App) :
  ~ blank (userData_name a) ->
  let viewer := trim (userData_name a) in
  let held := messages (load db None true a) in
  Forall (fun m => exists row,
              In row (table db) /\ m = mapRowToMessage row (Some viewer))
    held
  /\ (no_backslash viewer ->
      (forall row, In row (table db) ->
                   DbRow.sender row = viewer \/ DbRow.recipient row = viewer ->
                   In (mapRowToMessage row (Some viewer)) held)
      /\ Forall (fun m => exists row,
                     In row (table db)
                     /\ m = mapRowToMessage row (Some viewer)
                     /\ (DbRow.sender row = viewer
                         \/ DbRow.recipient row = viewer))
           held)
  /\ Forall (fun m => Message.from m = str "You" \/ Message.to m = str "You")
       held
  /\ sortedMessages held = held
  /\ load db None true a = setMessages (fun _ => held) a
  /\ load db None false a = a.
Proof.
  intros Hn. cbv zeta. apply trim_not_blank in Hn.
  destruct (trim (userData_name a)) as [|c v] eqn:Hs; [contradiction|].
  assert (Hset : load db None true a
                 = setMessages (fun _ => messages (load db None true a)) a).
  { unfold load. rewrite Hs. reflexivity. }
  assert (Hoff : load db None false a = a).
  { unfold load. rewrite Hs. reflexivity. }
  revert Hset. rewrite (load_messages db a c v Hs). intros Hset.
  set (involves := fun r => bool_decide (DbRow.sender r = c :: v)
                            || bool_decide (DbRow.recipient r = c :: v)) in *.
  assert (Hinv : forall row, involves row = true
                 <-> DbRow.sender row = c :: v \/ DbRow.recipient row = c :: v).
  { intros row. unfold involves. rewrite orb_true_iff, !bool_decide_eq_true.
    reflexivity. }
  assert (Hheld : forall m,
            In m (sortedMessages
                    (map (fun r => mapRowToMessage r (Some (c :: v)))
                       (List.filter involves (table db))))
            <-> exists row, In row (table db)
                            /\ m = mapRowToMessage row (Some (c :: v))
                            /\ involves row = true).
  { intros m. unfold sortedMessages. rewrite Array_sort_In, in_map_iff.
    split.
    - intros (row & <- & Hr). apply filter_In in Hr as [Hr Hi]. eauto.
    - intros (row & Hr & -> & Hi). exists row. split; [reflexivity|].
      apply filter_In. auto. }
  split; [|split; [|split; [|split; [|split]]]].
  - apply Forall_forall. intros m Hm.
    apply list_elem_of_In, Hheld in Hm as (row & Hr & -> & Hi).
    exists row. auto.
  - intros _. split.
    + intros row Hr Hi. apply Hheld. exists row. rewrite Hinv. auto.
    + apply Forall_forall. intros m Hm.
      apply list_elem_of_In, Hheld in Hm as (row & Hr & -> & Hi).
      exists row. rewrite <- Hinv. auto.
  - apply Forall_forall. intros m Hm.
    apply list_elem_of_In, Hheld in Hm as (row & Hr & -> & Hi).
    cbn [Message.from Message.to mapRowToMessage].
    case_bool_decide; [left | right]; reflexivity.
  - apply sortedMessages_fixed, sortedMessages_newer_first.
  - exact Hset.
  - exact Hoff.
Qed.

Lemma load_replaces_witness :
  ~ blank (userData_name bobApp)
  /\ no_backslash (trim (userData_name bobApp))
  /\ sortedMessages (messages (load unlockedBackend None true bobApp))
     = messages (load unlockedBackend None true bobApp)
  /\ (forall row,
        In row (table unlockedBackend) ->
        DbRow.sender row = str "Bob" \/ DbRow.recipient row = str "Bob" ->
        In (mapRowToMessage row (Some (str "Bob")))
           (messages (load unlockedBackend None true bobApp))).
Proof.
  assert (H : ~ blank (userData_name bobApp))
    by (apply not_blank_cons; reflexivity).
  split; [exact H|]. split; [exact no_backslash_Bob|].
  destruct (load_replaces unlockedBackend bobApp H)
    as (_ & He & _ & Hs & _).
  split; [exact Hs|]. exact (proj1 (He no_backslash_Bob)).
Defined.

(** X21: a letter that has been sent is found by its recipient's load,
    when the recipient's name has no backslash, so that the quoted text
    the load's request carries is that name with its quotes escaped: the
    recipient then holds a message with the id the server gave, the body
    that was sent, locked, with no receivePhoto and not archived; unless
    the sender is the recipient or is named "You", the letter is among
    those awaiting the recipient's moon. *)
Theorem send_then_load (db : Backend) (newId created : Z) (a b : App)
    (n : JsString) :
  ~ blank (userData_name a) ->
  recipient a = Some n -> ~ blank n ->
  no_backslash (trim n) ->
  trim (userData_name b) = trim n ->
  let res := handleSendMessage db newId created None a in
  let held := messages (load (fst res) None true b) in
  exists m,
    In m held
    /\ Message.id m = newId
    /\ Message.body m = body_of (messageText a)
    /\ Message.locked m = true
    /\ Message.receivePhoto m = JsNull
    /\ Message.archived m = false
    /\ Message.rawSender m = trim (userData_name a)
    /\ Message.rawRecipient m = trim n
    /\ (trim (userData_name a) <> trim n ->
        trim (userData_name a) <> str "You" ->
        In m (pending held)
        /\ Message.from m = trim (userData_name a)
        /\ Message.to m = str "You").
Proof.
  intros Hn Hr Hb Hplain Hv. cbv zeta.
  assert (Hnb : ~ blank (userData_name b)).
  { intros H. apply trim_all_white in H. rewrite Hv in H.
    exact (trim_not_blank n Hb H). }
  destruct (load_replaces
              (fst (handleSendMessage db newId created None a)) b Hnb)
    as (_ & Hload & _).
  cbv zeta in Hload. rewrite Hv in Hload.
  apply proj1 in Hload; [|exact Hplain].
  set (held := messages (load _ None true b)) in *.
  set (row := {| DbRow.id := newId; DbRow.sender := trim (userData_name a);
                 DbRow.recipient := trim n;
                 DbRow.body := body_of (messageText a);
                 DbRow.locked := JsBool true; DbRow.created_at := created;
                 DbRow.receive_at := JsNull;
                 DbRow.send_photo := nullish_or (sendPhoto a) JsNull;
                 DbRow.receive_photo := JsNull |}).
  assert (Hin : In row (table (fst (handleSendMessage db newId created None a)))).
  { unfold handleSendMessage.
    pose proof (trim_not_blank _ Hn) as Hn'. pose proof (trim_not_blank _ Hb) as Hb'.
    destruct (trim (userData_name a)) as [|c s] eqn:Hs; [contradiction|].
    rewrite Hr. destruct (trim n) as [|d t] eqn:Ht; [contradiction|].
    cbn [insertMessage fst table]. apply in_or_app. right. left.
    subst row. try rewrite Hs. try rewrite Ht. reflexivity. }
  specialize (Hload row Hin (or_intror eq_refl)).
  exists (mapRowToMessage row (Some (trim n))).
  split; [exact Hload|]. do 7 (split; [reflexivity|]).
  intros Hne HneYou.
  assert (Hvw : viewer_of (Some (trim n)) = trim n).
  { rewrite viewer_of_trim. unfold viewer_of.
    pose proof (trim_not_blank _ Hb). destruct (trim n); [contradiction|].
    reflexivity. }
  assert (Hfrom : Message.from (mapRowToMessage row (Some (trim n)))
                  = trim (userData_name a)).
  { cbn [Message.from mapRowToMessage DbRow.sender row].
    rewrite Hvw, (bool_decide_eq_false_2 _ Hne). reflexivity. }
  split; [|split; [exact Hfrom|]].
  - unfold pending. apply filter_In. split; [|reflexivity].
    unfold incoming. apply filter_In. split; [exact Hload|].
    rewrite Hfrom, (bool_decide_eq_false_2 _ HneYou). reflexivity.
  - cbn [Message.to mapRowToMessage DbRow.sender row].
    rewrite Hvw, (bool_decide_eq_false_2 _ Hne). reflexivity.
Qed.

Lemma send_then_load_witness :
  ~ blank (userData_name bobComposing)
  /\ recipient bobComposing = Some (str "Alice")
  /\ ~ blank (str "Alice")
  /\ no_backslash (trim (str "Alice"))
  /\ exists m,
       In m (messages
               (load (fst (handleSendMessage lockedBackend 7 7000 None
                             bobComposing))
                  None true
                  {| route := inbox; userData_name := str " Alice ";
                     messages := []; activeMessage := None;
                     sendPhoto := JsNull; recipient := None;
                     messageText := []; console := []; alerts := [] |}))
       /\ Message.id m = 7
       /\ Message.body m = str "hi".
Proof.
  assert (H1 : ~ blank (userData_name bobComposing))
    by (apply not_blank_cons; reflexivity).
  assert (H2 : ~ blank (str "Alice")) by (apply not_blank_cons; reflexivity).
  split; [exact H1|]. split; [reflexivity|]. split; [exact H2|].
  split; [exact no_backslash_Alice|].
  destruct (send_then_load lockedBackend 7 7000 bobComposing
              {| route := inbox; userData_name := str " Alice ";
                 messages := []; activeMessage := None;
                 sendPhoto := JsNull; recipient := None;
                 messageText := []; console := []; alerts := [] |}
              (str "Alice") H1 eq_refl H2 no_backslash_Alice eq_refl)
    as (m & Hin & Hid & Hbody & _).
  exists m. auto.
Defined.

(** ** All the ways through [verifyMoon] *)

(** X22: [verifyMoon] calls [onVerifiedMoon] in one case only: a model
    and a canvas are there, the prediction did not throw, and the moon
    probability is at least 0.75.  The capture it passes carries the
    photo that was taken, the time of the call and a confidence that is
    at least 0.75.  Without a model or a canvas nothing changes at all;
    otherwise the verifying flag ends cleared, the photo is kept, and a
    prediction that throws is reported as "Verification failed" with the
    error's message. *)
Theorem verifyMoon_callback (hasModel hasCanvas : bool)
    (predicted : JsString + list Prediction) (now : JsString)
    (st : CaptureState) :
  let res := verifyMoon hasModel hasCanvas predicted now st in
  ((exists capture, snd res = Some capture)
   <-> hasModel = true /\ hasCanvas = true
       /\ exists ps, predicted = inr ps
                     /\ PrimFloat.leb 0.75 (moonProb ps) = true)
  /\ (forall capture,
        snd res = Some capture ->
        dataUrl capture = capturedDataUrl st
        /\ verifiedAt capture = now
        /\ PrimFloat.leb 0.75 (confidence capture) = true)
  /\ (hasModel = false \/ hasCanvas = false -> res = (st, None))
  /\ (hasModel = true -> hasCanvas = true ->
      verifying (fst res) = false
      /\ capturedDataUrl (fst res) = capturedDataUrl st
      /\ resultText (fst res) <> NoText)
  /\ (forall message,
        hasModel = true -> hasCanvas = true -> predicted = inl message ->
        res = (finish st (VerificationFailed message), None)).
Proof.
  cbv zeta. unfold verifyMoon. change MOON_THRESHOLD with 0.75%float.
  destruct hasModel, hasCanvas; cbn [negb];
    try (split; [split; [intros [? [=]] | intros (? & ? & _); discriminate]|];
         split; [intros ? [=]|];
         split; [reflexivity|];
         split; [intros; discriminate | intros; discriminate]).
  destruct predicted as [message | ps].
  - split; [split; [intros [? [=]] | intros (_ & _ & ? & [=] & _)]|].
    split; [intros ? [=]|].
    split; [intros [|]; discriminate|].
    split; [intros _ _; repeat split; discriminate|].
    intros m _ _ [= <-]. reflexivity.
  - destruct (PrimFloat.leb 0.75 (moonProb ps)) eqn:Hp.
    + split; [split; [intros _; repeat split; eauto | eauto]|].
      split; [intros capture [= <-]; repeat split; exact Hp|].
      split; [intros [|]; discriminate|].
      split; [intros _ _; repeat split; discriminate|].
      intros m _ _ [=].
    + split; [split; [intros [? [=]]|]|].
      { intros (_ & _ & ps' & [= <-] & Hp'). congruence. }
      split; [intros ? [=]|].
      split; [intros [|]; discriminate|].
      split; [intros _ _; repeat split; discriminate|].
      intros m _ _ [=].
Qed.

Lemma verifyMoon_callback_witness :
  snd (verifyMoon true true (inr skyThenMoon) (str "2024-01-02T20:00:00.000Z")
         {| capturedDataUrl := Some (str "data:image/jpeg;base64,AAAA");
            verifying := true; resultText := NoText |}) = None
  /\ snd (verifyMoon true true
            (inr [ {| className := str "Moon"; probability := 0.95 |} ])
            (str "2024-01-02T20:00:00.000Z")
            {| capturedDataUrl := Some (str "data:image/jpeg;base64,AAAA");
               verifying := true; resultText := NoText |}) = Some bobCapture
  /\ dataUrl bobCapture = Some (str "data:image/jpeg;base64,AAAA").
Proof.
  split; [reflexivity|].
  assert (H : snd (verifyMoon true true
            (inr [ {| className := str "Moon"; probability := 0.95 |} ])
            (str "2024-01-02T20:00:00.000Z")
            {| capturedDataUrl := Some (str "data:image/jpeg;base64,AAAA");
               verifying := true; resultText := NoText |}) = Some bobCapture)
    by reflexivity.
  split; [exact H|].
  destruct (verifyMoon_callback true true
              (inr [ {| className := str "Moon"; probability := 0.95 |} ])
              (str "2024-01-02T20:00:00.000Z")
              {| capturedDataUrl := Some (str "data:image/jpeg;base64,AAAA");
                 verifying := true; resultText := NoText |})
    as (_ & Hc & _).
  exact (proj1 (Hc bobCapture H)).
Defined.

(** ** The text of an error *)

(** X23: [showSupabaseError] never alerts an empty text when its fallback
    is not empty: it shows the error's message when there is a non-empty
    one, a thrown string itself when it is not empty, and the fallback
    for [null], [undefined] or for an error that carries no text. *)
Theorem errorText_nonempty (e : Thrown) (fallback : JsString) :
  fallback <> [] ->
  errorText e fallback <> []
  /\ (forall o m, e = ThrownObject o -> message o = Some m -> m <> [] ->
                  errorText e fallback = m)
  /\ (forall s, e = ThrownString s -> s <> [] -> errorText e fallback = s)
  /\ (e = ThrownNullish \/ e = ThrownString []
      \/ e = ThrownObject {| message := None; error_description := None;
                             details := None |} ->
      errorText e fallback = fallback).
Proof.
  intros Hf. split; [|split; [|split]].
  - unfold errorText.
    destruct (or_else _ _) as [text|] eqn:H; [|exact Hf].
    revert text H. do 4 apply or_else_nonempty. intros t [=].
  - intros o m -> Hm Hne. unfold errorText. rewrite Hm.
    destruct m; [contradiction | reflexivity].
  - intros s -> Hne. unfold errorText. cbn.
    destruct s; [contradiction | reflexivity].
  - intros [-> | [-> | ->]]; reflexivity.
Qed.

Lemma errorText_nonempty_witness :
  str "Supabase error" <> []
  /\ errorText (ThrownObject {| message := Some [];
                                error_description := None;
                                details := Some (str "row-level security") |})
       (str "Supabase error") <> [].
Proof.
  assert (H : str "Supabase error" <> []) by discriminate.
  split; [exact H|].
  exact (proj1 (errorText_nonempty _ (str "Supabase error") H)).
Defined.
